(** * Huldra storage adapters and performance instrumentation

    A shallow embedding of the JavaScript sources of the storage-evaluation
    artifacts: the provider adapters (Dropbox, OneDrive, Azure), the case
    validator and selector built on them, the [perfHelpers] tables and the
    [usePerformanceMetrics] hook.

    Conventions of the embedding:
    - a JavaScript string is a [string] (a sequence of bytes, read as UTF-8);
    - an [async] function returns a [promise]: resolved, rejected or never
      settled;
    - JavaScript numbers that hold durations and sizes are exact rationals
      ([Q]); the rounding error of IEEE-754 arithmetic is outside the model;
    - state held in React refs and state cells is threaded explicitly. *)

From Stdlib Require Import Ascii QArith Qround Qabs.
From Stdlib Require DecimalString.
From stdpp Require Import gmap strings list.

(** ** Promises *)

Module Async.

(** The reason a promise is rejected with. *)
Definition error := string.

(** The eventual outcome of awaiting a promise. [Pending] is the promise
    that never settles (a loop that never leaves). *)
Inductive promise (A : Type) : Type :=
| Resolved (a : A)
| Rejected (e : error)
| Pending.

Arguments Resolved {A} a.
Arguments Rejected {A} e.
Arguments Pending {A}.

(** [await p] followed by the continuation [k]. *)
Definition bind {A B} (p : promise A) (k : A → promise B) : promise B :=
  match p with
  | Resolved a => k a
  | Rejected e => Rejected e
  | Pending => Pending
  end.

(** [Promise.all]: rejected as soon as a member is rejected, resolved with
    the values in input order once every member is resolved, pending
    otherwise. When several members are rejected the reason reported is
    that of the member settled first; the embedding reports the one of
    lowest index, and no statement below depends on which it is. *)
Fixpoint first_rejection {A} (ps : list (promise A)) : option error :=
  match ps with
  | [] => None
  | Rejected e :: _ => Some e
  | _ :: ps' => first_rejection ps'
  end.

Fixpoint all_resolved {A} (ps : list (promise A)) : option (list A) :=
  match ps with
  | [] => Some []
  | Resolved a :: ps' => option_map (cons a) (all_resolved ps')
  | _ :: _ => None
  end.

Definition Promise_all {A} (ps : list (promise A)) : promise (list A) :=
  match first_rejection ps with
  | Some e => Rejected e
  | None =>
      match all_resolved ps with
      | Some vs => Resolved vs
      | None => Pending
      end
  end.

End Async.

Import Async.

Notation "'let/await' x ':=' p 'in' k" := (Async.bind p (fun x => k))
  (at level 10, x pattern, p at level 100, k at level 200).

(** ** Strings *)

Module Str.

(** [s.split(sep)] for a one-character separator: never empty. *)
Fixpoint split_aux (sep : ascii) (s : string) (cur : string) : list string :=
  match s with
  | EmptyString => [String.rev cur]
  | String c s' =>
      if Ascii.eqb c sep then String.rev cur :: split_aux sep s' EmptyString
      else split_aux sep s' (String c cur)
  end.

Definition split (sep : ascii) (s : string) : list string :=
  split_aux sep s EmptyString.

(** [arr.pop()] read as a value: the last element. *)
Definition pop (l : list string) : option string := last l.

Definition lower_ascii (c : ascii) : ascii :=
  let n := nat_of_ascii c in
  if (65 <=? n)%nat && (n <=? 90)%nat then ascii_of_nat (n + 32) else c.

Definition upper_ascii (c : ascii) : ascii :=
  let n := nat_of_ascii c in
  if (97 <=? n)%nat && (n <=? 122)%nat then ascii_of_nat (n - 32) else c.

Fixpoint map_chars (f : ascii → ascii) (s : string) : string :=
  match s with
  | EmptyString => EmptyString
  | String c s' => String (f c) (map_chars f s')
  end.

(** [toLowerCase] and [toUpperCase] on the ASCII letters. Bytes of other
    characters are kept as they are. *)
Definition toLowerCase : string → string := map_chars lower_ascii.
Definition toUpperCase : string → string := map_chars upper_ascii.

Definition startsWith (s p : string) : bool := String.prefix p s.

Definition endsWith (s p : string) : bool :=
  String.prefix (String.rev p) (String.rev s).

(** [s.charAt(0)]: the empty string when [s] is empty. *)
Definition charAt0 (s : string) : string :=
  match s with
  | EmptyString => EmptyString
  | String c _ => String c EmptyString
  end.

(** [s.includes(sub)]. *)
Definition includes (s sub : string) : bool :=
  match String.index 0 sub s with
  | Some _ => true
  | None => false
  end.

(** [arr.join(sep)]. *)
Definition join (sep : string) (l : list string) : string :=
  String.concat sep l.

End Str.

(** ** Plain objects used as lookup tables *)

Module Obj.

(** What reading [obj[key]] on an object literal gives: an own property, a
    member inherited from [Object.prototype] (truthy, and never a string),
    or [undefined]. *)
Inductive prop (V : Type) : Type :=
| Own (v : V)
| Inherited
| Undefined.

Arguments Own {V} v.
Arguments Inherited {V}.
Arguments Undefined {V}.

Definition prototype_keys : list string :=
  [ "constructor"; "__defineGetter__"; "__defineSetter__"; "hasOwnProperty";
    "__lookupGetter__"; "__lookupSetter__"; "isPrototypeOf";
    "propertyIsEnumerable"; "toString"; "valueOf"; "__proto__";
    "toLocaleString" ].

Definition inherited (key : string) : bool :=
  bool_decide (key ∈ prototype_keys).

(** Own properties in insertion order. *)
Fixpoint own {V} (o : list (string * V)) (key : string) : option V :=
  match o with
  | [] => None
  | (k, v) :: o' => if String.eqb k key then Some v else own o' key
  end.

Definition get {V} (o : list (string * V)) (key : string) : prop V :=
  match own o key with
  | Some v => Own v
  | None => if inherited key then Inherited else Undefined
  end.

(** [obj[key] = v]: an existing key keeps its place. *)
Fixpoint set {V} (o : list (string * V)) (key : string) (v : V)
  : list (string * V) :=
  match o with
  | [] => [(key, v)]
  | (k, w) :: o' =>
      if String.eqb k key then (k, v) :: o' else (k, w) :: set o' key v
  end.

Definition keys {V} (o : list (string * V)) : list string := map fst o.

End Obj.

(** ** CaseValidator *)

(** The JavaScript values that flow through the tables: a string, a
    non-negative integer, or the member of [Object.prototype] a table read
    finds under an inherited key. *)
Inductive jsval : Type :=
| JStr (s : string)
| JNum (n : nat)
| JProto (key : string).

Module CaseValidator.
Section CaseValidator.

(** The adapter's file listing, [listFiles(path, substring)]. *)
Context {Item : Type}.
Variable listFiles : string → string → promise (list Item).

(** The [switch (caseType)] of [checkAssets]. *)
Definition meetsRequirement (caseType : jsval) (count : nat) : bool :=
match caseType with
| JStr t =>
    if String.eqb t "image" then 3 <=? count
    else if String.eqb t "audio" then 2 <=? count
    else if String.eqb t "video" then 2 <=? count
    else if String.eqb t "text" then 2 <=? count
    else if String.eqb t "hybrid" then 3 <=? count
    else false
| JNum _ | JProto _ => false
end.

Definition checkAssets (folderPath : string) (caseType : jsval)
: promise bool :=
let/await assets := listFiles folderPath "" in
Resolved (meetsRequirement caseType (length assets)).

End CaseValidator.
End CaseValidator.

(** The threshold table of the specification. *)
Definition requiredAssetCount (t : string) : option nat :=
  if String.eqb t "image" then Some 3
  else if String.eqb t "hybrid" then Some 3
  else if String.eqb t "audio" then Some 2
  else if String.eqb t "video" then Some 2
  else if String.eqb t "text" then Some 2
  else None.

Section CaseNames.

(** The prefix table of [validateCases]:
    [{ audio, video, hybrid, text }]. *)
Definition lookup : list (string * string) :=
  [ ("audio", "audio"); ("video", "video"); ("hybrid", "hybrid");
    ("text", "text") ].

(** [name.split("-")[0].toLowerCase()]. *)
Definition casePrefix (name : string) : string :=
  Str.toLowerCase (default "" (head (Str.split "-" name))).

(** [lookup[prefix] || "image"]. *)
Definition caseTypeOf (prefix : string) : jsval :=
  match Obj.get lookup prefix with
  | Obj.Own t => JStr t
  | Obj.Inherited => JProto prefix
  | Obj.Undefined => JStr "image"
  end.

End CaseNames.

Module ValidateCases.
Section ValidateCases.

Context {Item : Type}.
Variable listFiles : string → string → promise (list Item).

(** The folder the cases live in, as each adapter spells it
  (["/gallery/cases/"] or ["gallery/cases/"]). *)
Variable casesFolder : string.

Definition validateCases (cases : list string) : promise (list bool) :=
Promise_all
  (map (fun caseName =>
          let prefix := casePrefix caseName in
          let caseType := caseTypeOf prefix in
          CaseValidator.checkAssets listFiles (casesFolder +:+ caseName) caseType)
       cases).

End ValidateCases.
End ValidateCases.

(** [names.filter((_, i) => flags[i])]: a name is kept when the flag at its
    index is true; a missing flag is [undefined], which drops the name. *)
Fixpoint filterByFlags (names : list string) (flags : list bool) : list string :=
  match names, flags with
  | n :: names', f :: flags' =>
      if f then n :: filterByFlags names' flags' else filterByFlags names' flags'
  | _, _ => []
  end.

(** ** ProviderAdapter: Dropbox *)

Module Dropbox.

(** An entry of a folder listing: [entry[".tag"]], [entry.name],
    [entry.path_lower]. *)
Record Entry : Type := {
  tag : string;
  name : string;
  path_lower : string
}.

(** [response.result] of a listing call. *)
Record ListFolderResult : Type := {
  entries : list Entry;
  has_more : bool;
  cursor : string
}.

(** The two SDK calls the adapter makes. *)
Record Client : Type := {
  filesListFolder : string → promise ListFolderResult;
  filesListFolderContinue : string → promise ListFolderResult
}.

(** [{ path, name }] as returned by [listFiles]. *)
Record FileRef : Type := {
  path : string;
  ref_name : string
}.

Section Adapter.

Variable ROOT_DIR : string.
Variable dbx : Client.

(** The [while (response.result.has_more)] loop; [fuel] bounds the number
    of continuation calls, and the loop that outlives it never returns. *)
Fixpoint listAllEntries_loop (fuel : nat) (response : ListFolderResult)
    (acc : list Entry) : promise (list Entry) :=
  if has_more response then
    match fuel with
    | O => Pending
    | S fuel' =>
        let/await response' :=
          filesListFolderContinue dbx (cursor response) in
        listAllEntries_loop fuel' response' (acc ++ entries response')
    end
  else Resolved acc.

Definition listAllEntries (fuel : nat) (path : string)
  : promise (list Entry) :=
  let fullPath := ROOT_DIR +:+ path in
  let/await response := filesListFolder dbx fullPath in
  listAllEntries_loop fuel response ([] ++ entries response).

Definition listFolders (fuel : nat) (path : string)
  : promise (list string) :=
  let/await entries := listAllEntries fuel path in
  Resolved
    (map name
       (List.filter (fun entry => String.eqb (tag entry) "folder") entries)).

Definition listFiles (fuel : nat) (path : string) (substring : string)
  : promise (list FileRef) :=
  let/await entries := listAllEntries fuel path in
  Resolved
    (map (fun file => {| path := path_lower file; ref_name := name file |})
       (List.filter
          (fun entry =>
             String.eqb (tag entry) "file"
             && Str.includes (name entry) substring)
          entries)).

Definition checkAssets (fuel : nat) : string → jsval → promise bool :=
  CaseValidator.checkAssets (listFiles fuel).

Definition validateCases (fuel : nat) : list string → promise (list bool) :=
  ValidateCases.validateCases (listFiles fuel) "/gallery/cases/".

End Adapter.

(** The pages a listing is served in, starting from the response [r]:
    [served r all n] when following the cursors from [r] ends after [n]
    continuation calls and the pages hold [all]. *)
Inductive served (dbx : Client) : ListFolderResult → list Entry → nat → Prop :=
| served_last r :
    has_more r = false → served dbx r (entries r) 0
| served_more r r' rest n :
    has_more r = true →
    filesListFolderContinue dbx (cursor r) = Resolved r' →
    served dbx r' rest n →
    served dbx r (entries r ++ rest) (S n).

End Dropbox.

(** ** ProviderAdapter: OneDrive *)

Module OneDrive.

(** A child of a drive folder: [item.name] and whether the [folder] and
    [file] facets are present. *)
Record DriveItem : Type := {
  name : string;
  folder : bool;
  file : bool
}.

(** [response.data] of a children request: one page of items, and the link
    to the next page when the collection has more. *)
Record Children : Type := {
  value : list DriveItem;
  odata_nextLink : option string
}.

(** The Graph client: [client.get(url)]. *)
Record Client : Type := {
  get : string → promise Children
}.

Section Adapter.

Variable REACT_APP_ONEDRIVE_ROOT_DIRECTORY : string.
Variable client : Client.

Definition childrenUrl (path : string) : string :=
  "/root:/" +:+ REACT_APP_ONEDRIVE_ROOT_DIRECTORY +:+ "/" +:+ path
    +:+ ":/children".

Definition listFoldersFromOneDrive (path : string) : promise (list string) :=
  let url := childrenUrl path in
  let/await response := get client url in
  Resolved (map name (List.filter (fun item => folder item) (value response))).

Definition listFilesFromOneDrive (path : string) (substring : string)
  : promise (list string) :=
  let url := childrenUrl path in
  let/await response := get client url in
  Resolved
    (map name
       (List.filter
          (fun item => file item && Str.includes (name item) substring)
          (value response))).

Definition checkAssetsInOneDrive : string → jsval → promise bool :=
  CaseValidator.checkAssets listFilesFromOneDrive.

Definition validateCasesInOneDrive : list string → promise (list bool) :=
  ValidateCases.validateCases listFilesFromOneDrive "/gallery/cases/".

End Adapter.

(** The whole collection behind a first page: [collection c r all] when
    following the next-page links from [r] reaches a page without one and
    the pages hold [all]. *)
Inductive collection (client : Client) : Children → list DriveItem → Prop :=
| collection_last r :
    odata_nextLink r = None → collection client r (value r)
| collection_next r link r' rest :
    odata_nextLink r = Some link →
    get client link = Resolved r' →
    collection client r' rest →
    collection client r (value r ++ rest).

End OneDrive.

(** ** ProviderAdapter: Azure Blob Storage *)

Module Azure.

(** An item of a hierarchical listing: [item.kind] is ["prefix"] for a
    virtual folder and ["blob"] for a blob. *)
Record HierarchyItem : Type := {
  kind : string;
  name : string
}.

(** The container client. Each listing is an asynchronous iterator that the
    adapter drains with [for await]; it is given by what draining yields. *)
Record ContainerClient : Type := {
  listBlobsByHierarchy : string → string → promise (list HierarchyItem);
  listBlobsFlat : string → promise (list string)
}.

(** [s.replace(/\/+/g, "/")]. *)
Fixpoint collapseSlashes (s : string) : string :=
  match s with
  | EmptyString => EmptyString
  | String c s' =>
      if Ascii.eqb c "/" then
        match s' with
        | String c' _ =>
            if Ascii.eqb c' "/" then collapseSlashes s'
            else String c (collapseSlashes s')
        | EmptyString => String c EmptyString
        end
      else String c (collapseSlashes s')
  end.

(** [name.split("/").filter(Boolean)]. *)
Definition segments (name : string) : list string :=
  List.filter (fun s => negb (String.eqb s "")) (Str.split "/" name).

(** All members defined, as [validateCases] needs them: [name.split] on an
    [undefined] member throws, which rejects the batch. *)
Fixpoint definedNames (l : list (option string)) : promise (list string) :=
  match l with
  | [] => Resolved []
  | Some n :: l' => let/await ns := definedNames l' in Resolved (n :: ns)
  | None :: _ =>
      Rejected "TypeError: Cannot read properties of undefined (reading 'split')"
  end.

(** The five buckets of the categorized shuffle, in the order of the
    object literal. *)
Definition emptyBuckets : list (string * list string) :=
  [ ("image", []); ("audio", []); ("video", []); ("text", []);
    ("hybrid", []) ].

(** [(buckets[key] || buckets.image).push(c)]. An inherited member is
    truthy and has no [push]. *)
Definition pushCase (buckets : list (string * list string)) (c : string)
  : promise (list (string * list string)) :=
  let key := casePrefix c in
  match Obj.get buckets key with
  | Obj.Own arr => Resolved (Obj.set buckets key (arr ++ [c]))
  | Obj.Inherited => Rejected "TypeError: push is not a function"
  | Obj.Undefined =>
      match Obj.own buckets "image" with
      | Some arr => Resolved (Obj.set buckets "image" (arr ++ [c]))
      | None =>
          Rejected "TypeError: Cannot read properties of undefined (reading 'push')"
      end
  end.

(** [valid.forEach(c => ...)]. *)
Fixpoint fillBuckets (buckets : list (string * list string))
    (valid : list string) : promise (list (string * list string)) :=
  match valid with
  | [] => Resolved buckets
  | c :: valid' =>
      let/await buckets' := pushCase buckets c in
      fillBuckets buckets' valid'
  end.

(** [buckets.image], [buckets.hybrid], ... *)
Definition bucket (buckets : list (string * list string)) (key : string)
  : list string :=
  default [] (Obj.own buckets key).

Section Adapter.

Variable ROOT_DIR : string.
Variable client : ContainerClient.

(** lodash's [shuffle], drawing from a random generator of state [rng]:
    the shuffled copy and the generator's next state. *)
Variable rng : Type.
Variable shuffle : rng → list string → list string * rng.

Definition listingPrefix (path : string) : string :=
  collapseSlashes (ROOT_DIR +:+ "/" +:+ path).

(** The folder names pushed by the loop; [segments.pop()] of an item
    without a segment is [undefined]. *)
Definition listFoldersFromAzure (path : string)
  : promise (list (option string)) :=
  let prefix := listingPrefix path in
  let/await items := listBlobsByHierarchy client "/" prefix in
  Resolved
    (map (fun item => Str.pop (segments (name item)))
       (List.filter (fun item => String.eqb (kind item) "prefix") items)).

Definition listFilesFromAzure (path : string) (substring : string)
  : promise (list string) :=
  let prefix := listingPrefix path in
  let/await blobs := listBlobsFlat client prefix in
  Resolved (List.filter (fun blobName => Str.includes blobName substring) blobs).

Definition checkAssetsInAzure : string → jsval → promise bool :=
  CaseValidator.checkAssets listFilesFromAzure.

Definition validateCasesInAzure : list string → promise (list bool) :=
  ValidateCases.validateCases listFilesFromAzure "gallery/cases/".

(** The [categorized] branch once the buckets are filled: the five
    shuffles in the order of the array literal. *)
Definition concatShuffled (g : rng) (buckets : list (string * list string))
  : list string :=
  let '(image, g1) := shuffle g (bucket buckets "image") in
  let '(hybrid, g2) := shuffle g1 (bucket buckets "hybrid") in
  let '(video, g3) := shuffle g2 (bucket buckets "video") in
  let '(audio, g4) := shuffle g3 (bucket buckets "audio") in
  let '(text, _) := shuffle g4 (bucket buckets "text") in
  image ++ hybrid ++ video ++ audio ++ text.

Definition fetchCasesFromAzure (g : rng) (configExists : bool)
    (path : string) (cases : list string) (shuffleMode : string)
  : promise (list string) :=
  let/await candidate :=
    (if configExists then Resolved cases
     else let/await folders := listFoldersFromAzure path in
          definedNames folders) in
  let/await validFlags := validateCasesInAzure candidate in
  let valid := filterByFlags candidate validFlags in
  if String.eqb shuffleMode "categorized" then
    let/await buckets := fillBuckets emptyBuckets valid in
    Resolved (concatShuffled g buckets)
  else if String.eqb shuffleMode "full" then
    Resolved (shuffle g valid).1
  else Resolved valid.

End Adapter.

End Azure.

(** ** perfHelpers *)

Module PerfHelpers.

(** Case directories in survey order. *)
Definition CASE_DIRS : list string :=
  [ "video-test1"; "video-test2"; "audio-test1"; "audio-test2";
    "text-sample"; "image-test" ].

(** All test filenames. *)
Definition ALL_FILES : list string :=
  [ "video-test1-a.mp4"; "video-test1-b.mp4"; "video-test2-a.mp4";
    "audio-test1-a.mp3"; "audio-test1-b.mp3"; "audio-test2-a.mp3";
    "image-test-a.jpg"; "image-test-b.jpg"; "text-sample-a.txt" ].

Definition SIZE_LABEL_MAP : list (string * string) :=
  [ ("a", "small"); ("b", "medium"); ("c", "large") ].

(** [table[key] || "unknown"]: an empty string is falsy. *)
Definition orUnknown (p : Obj.prop jsval) (key : string) : jsval :=
  match p with
  | Obj.Own (JStr "") => JStr "unknown"
  | Obj.Own v => v
  | Obj.Inherited => JProto key
  | Obj.Undefined => JStr "unknown"
  end.

(** [SIZE_LABEL_MAP[key] || "unknown"]. *)
Definition sizeLabel (key : string) : jsval :=
  orUnknown
    (match Obj.get SIZE_LABEL_MAP key with
     | Obj.Own v => Obj.Own (JStr v)
     | Obj.Inherited => Obj.Inherited
     | Obj.Undefined => Obj.Undefined
     end) key.

(** The reducer of [SIZE_MAP]. [fileName.split("-")[1]] is [undefined] for
    a name without a hyphen, and [charAt] on it throws: [None]. *)
Definition sizeMapStep (map : list (string * jsval)) (fileName : string)
  : option (list (string * jsval)) :=
  match Str.split "-" fileName !! 1 with
  | Some segment =>
      let key := Str.charAt0 segment in
      Some (Obj.set map fileName (sizeLabel key))
  | None => None
  end.

(** [files.reduce(step, {})]. *)
Fixpoint reduceSizeMap (files : list string) (map : list (string * jsval))
  : option (list (string * jsval)) :=
  match files with
  | [] => Some map
  | fileName :: files' =>
      match sizeMapStep map fileName with
      | Some map' => reduceSizeMap files' map'
      | None => None
      end
  end.

Definition SIZE_MAP : list (string * jsval) :=
  default [] (reduceSizeMap ALL_FILES []).

(** Decimal digits of a non-negative integer. *)
Definition digits (n : Z) : string :=
  DecimalString.NilZero.string_of_uint (N.to_uint (Z.to_N n)).

Fixpoint zeros (k : nat) : string :=
  match k with
  | O => ""
  | S k' => String "0" (zeros k')
  end.

(** [x.toFixed(2)] below 10^21 (from there on JavaScript switches to the
    exponent notation, which no duration or size of a session reaches). The
    integer [n] is the one with [n / 100] closest to [|x|], the larger of
    two candidates. *)
Definition toFixed2 (x : Q) : string :=
  let sign := if Qle_bool 0 x then "" else "-" in
  let n := Qfloor (Qabs x * 100 + (1 # 2))%Q in
  let m := digits n in
  let k := String.length m in
  let m := if k <=? 2 then zeros (3 - k) +:+ m else m in
  let k := String.length m in
  sign +:+ String.substring 0 (k - 2) m +:+ "." +:+ String.substring (k - 2) 2 m.

(** Formats bytes into KB/MB. *)
Definition humanFileSize (bytes : N) : string :=
  let n := inject_Z (Z.of_N bytes) in
  if Qle_bool 1000000 n then toFixed2 (n / 1000000)%Q +:+ " MB"
  else toFixed2 (n / 1024)%Q +:+ " KB".

(** Formats byte delta into MB. *)
Definition humanMemoryDelta (bytes : Z) : string :=
  let n := inject_Z bytes in
  toFixed2 (n / (1024 * 1024))%Q +:+ " MB".

End PerfHelpers.

(** ** usePerformanceMetrics *)

Module Metrics.

Import PerfHelpers.

(** *** The browser as seen by the hook *)

(** A response: its header entries in iteration order, and the size of the
    body [blob()] reads ([None] when reading it fails). *)
Record Response : Type := {
  headers : list (string * string);
  body : option N
}.

(** One [fetch] and the readings taken around it: [performance.now()]
    before the request; the response and [performance.now()] after it, or
    [None] when the request fails; [performance.memory?.usedJSHeapSize]
    before and after, where the runtime exposes it. *)
Record Exchange : Type := {
  started : Q;
  settled : option (Response * Q);
  heapBefore : option N;
  heapAfter : option N
}.

(** The network: what the [n]-th request of the session, to a given URL,
    turns out to be. *)
Definition Network : Type := nat → string → Exchange.

Record Geo : Type := {
  country : string;
  continent : string
}.

(** The object pushed to [newMetrics], field by field. *)
Record MetricRecord : Type := {
  route : string;
  storageProvider : string;
  mCountry : string;
  mContinent : string;
  fileURL : string;
  fileName : string;
  fileType : string;
  size : jsval;
  fileSize : string;
  fetchTimeMs : string;
  throughputKBps : string;
  payloadKB : string;
  headerSizeBytes : nat;
  memoryDelta : string
}.

(** The own properties of the object literal, in the order it lists them. *)
Definition properties (m : MetricRecord) : list (string * jsval) :=
  [ ("route", JStr (route m));
    ("storageProvider", JStr (storageProvider m));
    ("country", JStr (mCountry m));
    ("continent", JStr (mContinent m));
    ("fileURL", JStr (fileURL m));
    ("fileName", JStr (fileName m));
    ("fileType", JStr (fileType m));
    ("size", size m);
    ("fileSize", JStr (fileSize m));
    ("fetchTimeMs", JStr (fetchTimeMs m));
    ("throughputKBps", JStr (throughputKBps m));
    ("payloadKB", JStr (payloadKB m));
    ("headerSizeBytes", JNum (headerSizeBytes m));
    ("memoryDelta", JStr (memoryDelta m)) ].

(** *** Route keys *)

(** What is left of [s] after the last occurrence of ["case"]. *)
Fixpoint afterLastCase (s : string) : option string :=
  match s with
  | EmptyString => None
  | String _ s' =>
      match afterLastCase s' with
      | Some rest => Some rest
      | None =>
          if String.prefix "case" s
          then Some (String.substring 4 (String.length s - 4) s)
          else None
      end
  end.

(** [routeKey.replace(/.*case/, "")] for a route key on one line ([.] does
    not match a line terminator): the greedy match ends at the last
    ["case"]. *)
Definition stripThroughCase (routeKey : string) : string :=
  default routeKey (afterLastCase routeKey).

Definition isSpace (c : ascii) : bool :=
  let n := nat_of_ascii c in
  (n =? 32) || ((9 <=? n) && (n <=? 13)).

Fixpoint skipSpaces (s : string) : string :=
  match s with
  | String c s' => if isSpace c then skipSpaces s' else s
  | EmptyString => s
  end.

Definition digitValue (c : ascii) : option Z :=
  let n := nat_of_ascii c in
  if (48 <=? n) && (n <=? 57) then Some (Z.of_nat (n - 48)) else None.

(** The value of the longest prefix of decimal digits, [acc] holding the
    digits read so far. *)
Fixpoint parseDigits (s : string) (acc : option Z) : option Z :=
  match s with
  | String c s' =>
      match digitValue c with
      | Some d => parseDigits s' (Some (default 0 acc * 10 + d))%Z
      | None => acc
      end
  | EmptyString => acc
  end.

(** [parseInt(s, 10)]; [None] is [NaN]. White space is the ASCII one. *)
Definition parseInt10 (s : string) : option Z :=
  match skipSpaces s with
  | String "-" s' => Z.opp <$> parseDigits s' None
  | String "+" s' => parseDigits s' None
  | s' => parseDigits s' None
  end.

(** [CASE_DIRS[parseInt(routeKey.replace(/.*case/, ""), 10) - 1]], with the
    [if (!caseDir) return] that follows. *)
Definition caseDirOf (routeKey : string) : option string :=
  match parseInt10 (stripThroughCase routeKey) with
  | Some n =>
      let idx := (n - 1)%Z in
      if (idx <? 0)%Z then None
      else match CASE_DIRS !! Z.to_nat idx with
           | Some caseDir => if String.eqb caseDir "" then None else Some caseDir
           | None => None
           end
  | None => None
  end.

(** *** Measuring one URL *)

(** The local variables of the timing loop. *)
Record Timing : Type := {
  sumFetch : Q;
  count : nat;
  headerSize : nat
}.

Definition ITER : nat := 7.

(** The encoded length of the header entries written as [key: value] lines
    joined by CRLF. *)
Definition headerBytes (resp : Response) : nat :=
  String.length
    (Str.join (String "013" (String "010" EmptyString))
       (map (fun kv => kv.1 +:+ ": " +:+ kv.2) (headers resp))).

Section Measure.

Variable net : Network.
Variable url : string.

(** [for (let i = 0; i < ITER; i++)], [remaining] iterations from index
    [i]; [issued] is the log of the requests of the session so far. *)
Fixpoint timingLoop (remaining i : nat) (acc : Timing)
    (issued : list string) : Timing * list string :=
  match remaining with
  | O => (acc, issued)
  | S remaining' =>
      let x := net (length issued) url in
      let t0 := started x in
      let issued' := issued ++ [url] in
      match settled x with
      | None => timingLoop remaining' (S i) acc issued'
      | Some (resp, t1) =>
          let acc' :=
            if i =? 0 then
              {| sumFetch := sumFetch acc;
                 count := count acc;
                 headerSize := headerBytes resp |}
            else
              {| sumFetch := (sumFetch acc + (t1 - t0))%Q;
                 count := S (count acc);
                 headerSize := headerSize acc |} in
          timingLoop remaining' (S i) acc' issued'
      end
  end.

Definition avgFetchOf (t : Timing) : Q :=
  if 0 <? count t then (sumFetch t / inject_Z (Z.of_nat (count t)))%Q
  else 0%Q.

(** The body of the [for (const url of urls)] loop past the dedup guard. *)
Definition measure (routeKey providerName : string) (loc : Geo)
    (issued : list string) : MetricRecord * list string :=
  let '(t, issued1) :=
    timingLoop ITER 0 {| sumFetch := 0; count := 0; headerSize := 0 |} issued in
  let avgFetch := avgFetchOf t in
  let x := net (length issued1) url in
  let memBefore := default 0%N (heapBefore x) in
  let blobSize :=
    match settled x with
    | Some (blobResp, _) => default 0%N (body blobResp)
    | None => 0%N
    end in
  let memAfter := default 0%N (heapAfter x) in
  let memDelta := Z.max (Z.of_N memAfter - Z.of_N memBefore) 0 in
  let payloadKB := (inject_Z (Z.of_N blobSize) / 1024)%Q in
  let throughputKBps :=
    if Qle_bool avgFetch 0 then 0%Q else (payloadKB * 1000 / avgFetch)%Q in
  let lastSegment := default "" (Str.pop (Str.split "/" url)) in
  ({| route := routeKey;
      storageProvider := providerName;
      mCountry := country loc;
      mContinent := continent loc;
      fileURL := url;
      fileName := lastSegment;
      fileType := Str.toUpperCase (default "" (Str.pop (Str.split "." url)));
      size := orUnknown (Obj.get SIZE_MAP lastSegment) lastSegment;
      fileSize := humanFileSize blobSize;
      fetchTimeMs := toFixed2 avgFetch;
      throughputKBps := toFixed2 throughputKBps;
      payloadKB := toFixed2 payloadKB;
      headerSizeBytes := headerSize t;
      memoryDelta := humanMemoryDelta memDelta |},
   issued1 ++ [url]).

End Measure.

(** *** The session *)

(** A running invocation of [capture]: the values it closed over, the URLs
    it has yet to visit and its [newMetrics]. *)
Record Capture : Type := {
  routeKey : string;
  captured : Geo;
  pending : list string;
  newMetrics : list MetricRecord
}.

(** The state of one mounted hook: the route it was rendered with, the two
    state cells, the two refs, the captures in flight, the files handed to
    the browser for download (name and content) and the requests issued. *)
Record Session : Type := {
  currentRoute : string;
  location : Geo;
  allMetrics : list MetricRecord;
  recorded : gset string;
  hasDownloaded : bool;
  inflight : list Capture;
  downloads : list (string * string);
  issued : list string
}.

(** What drives a session: the host renders the hook with a route, the
    geolocation lookup settles, or the capture at a position of [inflight]
    runs up to its next suspension. *)
Inductive Event : Type :=
| Navigate (r : string)
| GeoResolved (loc : Geo)
| Advance (k : nat).

Section Hook.

Variable net : Network.

(** [surveyRoutes], imported from the host's route table. *)
Variable surveyRoutes : list string.

Variable providerName : string.
Variable buildUrls : string → promise (list string).

(** The text an engine prints for a member of [Object.prototype]. *)
Variable protoText : string → string.

(** How [join] writes a value. *)
Definition cellText (v : option jsval) : string :=
  match v with
  | Some (JStr s) => s
  | Some (JNum n) => digits (Z.of_nat n)
  | Some (JProto key) => protoText key
  | None => ""
  end.

(** The text of the report for a non-empty log: the keys of the first
    record, then one line per record. *)
Definition csvOf (first : MetricRecord) (metrics : list MetricRecord)
  : string :=
  let headerKeys := Obj.keys (properties first) in
  let header := Str.join "," headerKeys +:+ String "010" EmptyString in
  let rows :=
    Str.join (String "010" EmptyString)
      (map (fun m =>
              Str.join ","
                (map (fun k => cellText (Obj.own (properties m) k)) headerKeys))
           metrics) in
  header +:+ rows.

(** The effect that starts a capture. *)
Definition captureEffect (s : Session) : Session :=
  match List.find (fun r => Str.endsWith (currentRoute s) r) surveyRoutes with
  | None => s
  | Some matched =>
      match caseDirOf matched with
      | None => s
      | Some caseDir =>
          match buildUrls caseDir with
          | Resolved urls =>
              {| currentRoute := currentRoute s;
                 location := location s;
                 allMetrics := allMetrics s;
                 recorded := recorded s;
                 hasDownloaded := hasDownloaded s;
                 inflight :=
                   inflight s ++
                     [ {| routeKey := matched;
                          captured := location s;
                          pending := urls;
                          newMetrics := [] |} ];
                 downloads := downloads s;
                 issued := issued s |}
          | _ => s
          end
      end
  end.

(** The effect that downloads the report. *)
Definition downloadEffect (s : Session) : Session :=
  match allMetrics s with
  | first :: _ =>
      if Str.endsWith (currentRoute s) "/survey/end"
         && negb (hasDownloaded s)
      then
        {| currentRoute := currentRoute s;
           location := location s;
           allMetrics := allMetrics s;
           recorded := recorded s;
           hasDownloaded := true;
           inflight := inflight s;
           downloads :=
             downloads s ++
               [ (providerName +:+ "_complete_metrics.csv",
                  csvOf first (allMetrics s)) ];
           issued := issued s |}
      else s
  | [] => s
  end.

(** One turn of a capture: the next URL of its loop, or, the loop being
    over, [setAllMetrics] and the render that follows. *)
Definition advance (k : nat) (s : Session) : Session :=
  match inflight s !! k with
  | None => s
  | Some c =>
      match pending c with
      | url :: rest =>
          if bool_decide (url ∈ recorded s) then
            {| currentRoute := currentRoute s;
               location := location s;
               allMetrics := allMetrics s;
               recorded := recorded s;
               hasDownloaded := hasDownloaded s;
               inflight :=
                 <[k := {| routeKey := routeKey c;
                           captured := captured c;
                           pending := rest;
                           newMetrics := newMetrics c |}]> (inflight s);
               downloads := downloads s;
               issued := issued s |}
          else
            let '(m, issued') :=
              measure net url (routeKey c) providerName (captured c)
                (issued s) in
            {| currentRoute := currentRoute s;
               location := location s;
               allMetrics := allMetrics s;
               recorded := {[ url ]} ∪ recorded s;
               hasDownloaded := hasDownloaded s;
               inflight :=
                 <[k := {| routeKey := routeKey c;
                           captured := captured c;
                           pending := rest;
                           newMetrics := newMetrics c ++ [m] |}]> (inflight s);
               downloads := downloads s;
               issued := issued' |}
      | [] =>
          downloadEffect
            {| currentRoute := currentRoute s;
               location := location s;
               allMetrics := allMetrics s ++ newMetrics c;
               recorded := recorded s;
               hasDownloaded := hasDownloaded s;
               inflight := delete k (inflight s);
               downloads := downloads s;
               issued := issued s |}
      end
  end.

Definition withRoute (r : string) (s : Session) : Session :=
  {| currentRoute := r;
     location := location s;
     allMetrics := allMetrics s;
     recorded := recorded s;
     hasDownloaded := hasDownloaded s;
     inflight := inflight s;
     downloads := downloads s;
     issued := issued s |}.

Definition withLocation (loc : Geo) (s : Session) : Session :=
  {| currentRoute := currentRoute s;
     location := loc;
     allMetrics := allMetrics s;
     recorded := recorded s;
     hasDownloaded := hasDownloaded s;
     inflight := inflight s;
     downloads := downloads s;
     issued := issued s |}.

(** An effect runs after a render in which one of its dependencies
    changed: both effects depend on the route, the capture effect on the
    location, the download effect on the log. *)
Definition step (s : Session) (e : Event) : Session :=
  match e with
  | Navigate r =>
      if String.eqb r (currentRoute s) then s
      else downloadEffect (captureEffect (withRoute r s))
  | GeoResolved loc => captureEffect (withLocation loc s)
  | Advance k => advance k s
  end.

(** The first render: every effect runs. *)
Definition mount (r : string) : Session :=
  downloadEffect
    (captureEffect
       {| currentRoute := r;
          location := {| country := "Unknown"; continent := "Unknown" |};
          allMetrics := [];
          recorded := ∅;
          hasDownloaded := false;
          inflight := [];
          downloads := [];
          issued := [] |}).

Definition run (s : Session) (events : list Event) : Session :=
  fold_left step events s.

End Hook.

End Metrics.

(** ** What the statements are measured against *)

(** The threshold a case type asks for, [None] for a value that is none of
    the five case types. *)
Definition thresholdOf (caseType : jsval) : option nat :=
  match caseType with
  | JStr t => requiredAssetCount t
  | JNum _ | JProto _ => None
  end.

(** The bucket a case name belongs to: its lower-cased prefix when that is a
    case type, [image] otherwise. *)
Definition bucketOf (c : string) : string :=
  let key := casePrefix c in
  if bool_decide (key ∈ ["image"; "hybrid"; "video"; "audio"; "text"])
  then key else "image".

Definition inBucket (key : string) (names : list string) : list string :=
  List.filter (fun c => String.eqb (bucketOf c) key) names.

(** The duration the hook computes for a request that succeeds. *)
Definition elapsed (x : Metrics.Exchange) : option Q :=
  match Metrics.settled x with
  | Some (_, t1) => Some (t1 - Metrics.started x)%Q
  | None => None
  end.

(** The durations of the successful ones among the six requests that follow
    request [k0] of the session, in order. *)
Definition timedCycles (net : Metrics.Network) (url : string) (k0 : nat)
  : list Q :=
  omap (fun n => elapsed (net n url)) (seq (S k0) 6).

Definition Qsum (l : list Q) : Q := fold_left Qplus l 0%Q.

(** The arithmetic mean, 0 for no value at all. *)
Definition mean (l : list Q) : Q :=
  match l with
  | [] => 0%Q
  | _ => (Qsum l / inject_Z (Z.of_nat (length l)))%Q
  end.

(** The header size the probe of request [k0] yields. *)
Definition probedHeaderSize (net : Metrics.Network) (url : string) (k0 : nat)
  : nat :=
  match Metrics.settled (net k0 url) with
  | Some (resp, _) => Metrics.headerBytes resp
  | None => 0
  end.

(** The records a session has created so far: those of the log and those
    still held by the captures in flight. *)
Definition created (s : Metrics.Session) : list Metrics.MetricRecord :=
  Metrics.allMetrics s ++ flat_map Metrics.newMetrics (Metrics.inflight s).

(** No URL is held by two of the records created, and every URL held is in
    the set of seen URLs. *)
Definition deduplicated (s : Metrics.Session) : Prop :=
  NoDup (map Metrics.fileURL (created s))
  ∧ ∀ m, m ∈ created s → Metrics.fileURL m ∈ Metrics.recorded s.

(** The files downloaded are as many as the one-shot flag tells. *)
Definition exportedOnce (s : Metrics.Session) : Prop :=
  length (Metrics.downloads s) = if Metrics.hasDownloaded s then 1 else 0.

(** The entry of a size table for a file name is the label keyed by the first
    character of the second hyphen-separated segment of the name. *)
Definition labelled (map : list (string * jsval)) (fileName : string) : Prop :=
  ∃ segment, Str.split "-" fileName !! 1 = Some segment
             ∧ Obj.own map fileName
               = Some (PerfHelpers.sizeLabel (Str.charAt0 segment)).

(** The columns of a report as the data model of the specification names
    them. *)
Definition dataModelColumns : list string :=
  [ "route"; "provider"; "country"; "continent"; "fileURL"; "fileName";
    "fileType"; "sizeLabel"; "fileSizeHuman"; "fetchTimeMs"; "throughputKBps";
    "payloadKB"; "headerSizeBytes"; "memoryDeltaHuman" ].

(** The columns of a report as the record literal names them. *)
Definition reportColumns : list string :=
  [ "route"; "storageProvider"; "country"; "continent"; "fileURL"; "fileName";
    "fileType"; "size"; "fileSize"; "fetchTimeMs"; "throughputKBps";
    "payloadKB"; "headerSizeBytes"; "memoryDelta" ].

(** The line of a report for one record. *)
Definition reportRow (protoText : string → string) (m : Metrics.MetricRecord)
  : string :=
  Str.join ","
    [ Metrics.route m; Metrics.storageProvider m; Metrics.mCountry m;
      Metrics.mContinent m; Metrics.fileURL m; Metrics.fileName m;
      Metrics.fileType m; Metrics.cellText protoText (Some (Metrics.size m));
      Metrics.fileSize m; Metrics.fetchTimeMs m; Metrics.throughputKBps m;
      Metrics.payloadKB m;
      PerfHelpers.digits (Z.of_nat (Metrics.headerSizeBytes m));
      Metrics.memoryDelta m ].

Definition newline : string := String "010" EmptyString.

(** ** Sample backends *)

Module Samples.

(** A drive whose case folder [image-case1] holds three files and whose
    case folder [audio-case2] cannot be listed. *)
Definition brokenDrive : OneDrive.Client :=
  {| OneDrive.get url :=
       if String.eqb url "/root:/dev//gallery/cases/image-case1:/children" then
         Resolved
           {| OneDrive.value :=
                [ {| OneDrive.name := "a.jpg"; OneDrive.folder := false;
                     OneDrive.file := true |};
                  {| OneDrive.name := "b.jpg"; OneDrive.folder := false;
                     OneDrive.file := true |};
                  {| OneDrive.name := "c.jpg"; OneDrive.folder := false;
                     OneDrive.file := true |} ];
              OneDrive.odata_nextLink := None |}
       else Rejected "Request failed with status code 404" |}.

Definition folderItem (n : string) : OneDrive.DriveItem :=
  {| OneDrive.name := n; OneDrive.folder := true; OneDrive.file := false |}.

Definition firstPage : OneDrive.Children :=
  {| OneDrive.value := [folderItem "image-case1"];
     OneDrive.odata_nextLink := Some "/root:/dev/gallery/cases:/children?$skiptoken=1" |}.

Definition secondPage : OneDrive.Children :=
  {| OneDrive.value := [folderItem "audio-case2"];
     OneDrive.odata_nextLink := None |}.

(** A drive that serves the two case folders of [gallery/cases] on two
    pages. *)
Definition pagedDrive : OneDrive.Client :=
  {| OneDrive.get url :=
       if String.eqb url "/root:/dev/gallery/cases:/children" then
         Resolved firstPage
       else if String.eqb url "/root:/dev/gallery/cases:/children?$skiptoken=1" then
         Resolved secondPage
       else Rejected "Request failed with status code 404" |}.

(** A container with five case folders: three blobs under [image-case1]
    and [misc-case5], two under [audio-case2] and [Video-case3], one under
    [text-case4]. *)
Definition container : Azure.ContainerClient :=
  {| Azure.listBlobsByHierarchy delimiter prefix :=
       if String.eqb prefix "dev/gallery/cases/" then
         Resolved
           (map (fun n => {| Azure.kind := "prefix";
                             Azure.name := "dev/gallery/cases/" +:+ n +:+ "/" |})
              [ "audio-case2"; "image-case1"; "text-case4"; "Video-case3";
                "misc-case5" ])
       else Resolved [];
     Azure.listBlobsFlat prefix :=
       let blobs n :=
         map (fun i => prefix +:+ "/" +:+ i) (take n ["a"; "b"; "c"]) in
       if String.eqb prefix "dev/gallery/cases/image-case1" then Resolved (blobs 3)
       else if String.eqb prefix "dev/gallery/cases/misc-case5" then Resolved (blobs 3)
       else if String.eqb prefix "dev/gallery/cases/audio-case2" then Resolved (blobs 2)
       else if String.eqb prefix "dev/gallery/cases/Video-case3" then Resolved (blobs 2)
       else if String.eqb prefix "dev/gallery/cases/text-case4" then Resolved (blobs 1)
       else Resolved [] |}.

(** A shuffle that reverses, whatever the generator. *)
Definition reversing (g : unit) (l : list string) : list string * unit :=
  (rev l, g).

(** A network on which every request fails. *)
Definition deadNet : Metrics.Network :=
  fun n url =>
    {| Metrics.started := inject_Z (Z.of_nat n);
       Metrics.settled := None;
       Metrics.heapBefore := None;
       Metrics.heapAfter := None |}.

(** A network on which every third request fails, starting with the first
    of the session; the others take a millisecond and a half and answer
    with one header and a body of 2048 bytes. *)
Definition lossyNet : Metrics.Network :=
  fun n url =>
    {| Metrics.started := inject_Z (Z.of_nat n);
       Metrics.settled :=
         if n mod 3 =? 0 then None
         else Some ({| Metrics.headers := [("content-type", "text/plain")];
                       Metrics.body := Some 2048%N |},
                    (inject_Z (Z.of_nat n) + (3 # 2))%Q);
       Metrics.heapBefore := Some 10%N;
       Metrics.heapAfter := None |}.

Definition routes : list string :=
  [ "/survey/case1"; "/survey/case2"; "/survey/end" ].

(** A URL builder in the manner of the local one: the files of the
    manifest that belong to the case directory. *)
Definition localUrls (caseDir : string) : promise (list string) :=
  Resolved
    (map (fun fileName =>
            "https://host/gallery/cases/" +:+ caseDir +:+ "/" +:+ fileName)
       (List.filter (fun fileName => Str.startsWith fileName (caseDir +:+ "-"))
          (Obj.keys PerfHelpers.SIZE_MAP))).

Definition nativeText (key : string) : string :=
  "function " +:+ key +:+ "() { [native code] }".

(** A session that enters the first case, lets the capture run to its end
    (two URLs, then the update of the log), and goes on to the second
    case. *)
Definition afterFirstCase : Metrics.Session :=
  Metrics.run lossyNet routes "local" localUrls nativeText
    (Metrics.mount routes "local" localUrls nativeText "/app/survey/case1")
    [ Metrics.Advance 0; Metrics.Advance 0; Metrics.Advance 0;
      Metrics.Navigate "/app/survey/case2" ].

End Samples.

(** ** Dropbox: the selector and failing listings *)

Module DropboxSelector.

(** A listing that breaks: [broken dbx r e n] when following the cursors
    from the response [r] meets, after [n] pages that are served, a
    continuation call that is rejected with [e]. *)
Inductive broken (dbx : Dropbox.Client)
  : Dropbox.ListFolderResult → error → nat → Prop :=
| broken_here r e :
    Dropbox.has_more r = true →
    Dropbox.filesListFolderContinue dbx (Dropbox.cursor r) = Rejected e →
    broken dbx r e 0
| broken_later r r' e n :
    Dropbox.has_more r = true →
    Dropbox.filesListFolderContinue dbx (Dropbox.cursor r) = Resolved r' →
    broken dbx r' e n →
    broken dbx r e (S n).

Section Selector.

Variable ROOT_DIR : string.
Variable dbx : Dropbox.Client.

(** lodash's [shuffle] and its generator, as for the Azure adapter. *)
Variable rng : Type.
Variable shuffle : rng → list string → list string * rng.

Definition fetchCases (fuel : nat) (g : rng) (hasPreconfiguredCases : bool)
    (path : string) (cases : list string) (shuffleMode : string)
  : promise (list string) :=
  let/await candidateCases :=
    (if hasPreconfiguredCases then Resolved cases
     else Dropbox.listFolders ROOT_DIR dbx fuel path) in
  let/await validity := Dropbox.validateCases ROOT_DIR dbx fuel candidateCases in
  let validCases := filterByFlags candidateCases validity in
  if String.eqb shuffleMode "full" then Resolved (shuffle g validCases).1
  else Resolved validCases.

End Selector.

End DropboxSelector.

(** ** ProviderAdapter: Google Drive *)

Module GoogleDrive.

(** A file of a listing: [f.id] and [f.name]. *)
Record DriveFile : Type := {
  id : string;
  name : string
}.

(** The response of an upload request: [res.ok], [res.status], and the [id]
    of the metadata [res.json()] yields ([None] when it has none). *)
Record Response : Type := {
  ok : bool;
  status : nat;
  json : promise (option string)
}.

(** The outside of the module: how the [n]-th initialisation of the API
    client ends (rejected with [err.message]), what the [n]-th
    [files.list] call returns for a query and a field list, the access
    token, and how the [n]-th upload request, with its method and URL,
    ends. *)
Record Gapi : Type := {
  signIn : nat → promise ();
  filesList : nat → string → string → promise (list DriveFile);
  accessToken : string;
  fetch : nat → string → string → promise Response
}.

(** The variables of the module, and the calls made so far: the number of
    initialisations started, the queries listed, the upload requests sent
    (method and URL). *)
Record State : Type := {
  gapiInitialized : bool;
  cachedFileId : option string;
  fileCreated : bool;
  isCreatingFile : bool;
  inits : nat;
  queries : list (string * string);
  requests : list (string * string)
}.

Definition initial : State :=
  {| gapiInitialized := false;
     cachedFileId := None;
     fileCreated := false;
     isCreatingFile := false;
     inits := 0;
     queries := [];
     requests := [] |}.

(** An [async] function of the module: its outcome and the state it
    leaves, which holds whether it returns or throws. *)
Definition M (A : Type) : Type := State → promise A * State.

Definition ret {A} (a : A) : M A := fun st => (Resolved a, st).

Definition throw {A} (e : error) : M A := fun st => (Rejected e, st).

Definition bindM {A B} (m : M A) (k : A → M B) : M B :=
  fun st =>
    match m st with
    | (Resolved a, st') => k a st'
    | (Rejected e, st') => (Rejected e, st')
    | (Pending, st') => (Pending, st')
    end.

(** A string that holds: [null], [undefined] and the empty string do not. *)
Definition truthy (v : option string) : bool :=
  match v with
  | Some s => negb (String.eqb s "")
  | None => false
  end.

Section Adapter.

Variable REACT_APP_GOOGLE_DRIVE_FOLDER_ID : string.
Variable REACT_APP_GOOGLE_DRIVE_RESPONSE_FOLDER_ID : string.
Variable gapi : Gapi.

Definition initializeGoogleDrive : M () :=
  fun st =>
    if gapiInitialized st then (Resolved (), st)
    else
      let st1 :=
        {| gapiInitialized := false;
           cachedFileId := cachedFileId st;
           fileCreated := fileCreated st;
           isCreatingFile := isCreatingFile st;
           inits := S (inits st);
           queries := queries st;
           requests := requests st |} in
      match signIn gapi (inits st) with
      | Resolved _ =>
          (Resolved (),
           {| gapiInitialized := true;
              cachedFileId := cachedFileId st;
              fileCreated := fileCreated st;
              isCreatingFile := isCreatingFile st;
              inits := S (inits st);
              queries := queries st;
              requests := requests st |})
      | Rejected message =>
          (Rejected ("gapi init/sign-in failed: " +:+ message), st1)
      | Pending => (Pending, st1)
      end.

(** [gapi.client.drive.files.list({ q, fields })], logged. *)
Definition listCall (q fields : string) : M (list DriveFile) :=
  fun st =>
    (filesList gapi (length (queries st)) q fields,
     {| gapiInitialized := gapiInitialized st;
        cachedFileId := cachedFileId st;
        fileCreated := fileCreated st;
        isCreatingFile := isCreatingFile st;
        inits := inits st;
        queries := queries st ++ [(q, fields)];
        requests := requests st |}).

(** The query of [getTargetFolderId]. In the template the dollar signs are
    escaped, so the text holds the words [${folderId}] and [${part}]
    themselves. *)
Definition folderQuery : string :=
  "'${folderId}' in parents and name = '${part}' and mimeType='application/vnd.google-apps.folder' and trashed=false".

(** The query of [listFilesInFolder], with the same escapes. *)
Definition filesQuery : string :=
  "'${folderId}' in parents and name contains '${substring}' and mimeType!='application/vnd.google-apps.folder' and trashed=false".

(** [for (const part of parts)], from the folder reached so far. *)
Fixpoint resolveParts (parts : list string) (folderId : string) : M string :=
  match parts with
  | [] => ret folderId
  | part :: parts' =>
      bindM (listCall folderQuery "files(id)") (fun files =>
        match files with
        | [] => throw "Folder '${part}' not found"
        | first :: _ => resolveParts parts' (id first)
        end)
  end.

Definition getTargetFolderId (pathString : string) : M string :=
  bindM initializeGoogleDrive (fun _ =>
    resolveParts (Azure.segments pathString) REACT_APP_GOOGLE_DRIVE_FOLDER_ID).

Definition listFilesInFolder (folderId substring : string) : M (list string) :=
  bindM initializeGoogleDrive (fun _ =>
    bindM (listCall filesQuery "files(id,name)") (fun files =>
      ret (map name files))).

Definition listFilesFromGoogleDrive (folderPath substring : string)
  : M (list string) :=
  bindM (getTargetFolderId folderPath) (fun folderId =>
    listFilesInFolder folderId substring).

Definition checkAssetsInGoogleDrive (folderPath : string) (caseType : jsval)
  : M bool :=
  bindM (listFilesFromGoogleDrive folderPath "") (fun files =>
    ret (CaseValidator.meetsRequirement caseType (length files))).

Definition createUrl : string :=
  "https://www.googleapis.com/upload/drive/v3/files?uploadType=multipart".

Definition updateUrl (fileId : string) : string :=
  "https://www.googleapis.com/upload/drive/v3/files/" +:+ fileId
    +:+ "?uploadType=multipart".

(** [fetch(url, { method, headers, body })], logged. *)
Definition send (method url : string) : M Response :=
  fun st =>
    (fetch gapi (length (requests st)) method url,
     {| gapiInitialized := gapiInitialized st;
        cachedFileId := cachedFileId st;
        fileCreated := fileCreated st;
        isCreatingFile := isCreatingFile st;
        inits := inits st;
        queries := queries st;
        requests := requests st ++ [(method, url)] |}).

(** [if (!cachedFileId) isCreatingFile = true]. *)
Definition markCreating : M () :=
  fun st =>
    (Resolved (),
     if truthy (cachedFileId st) then st
     else {| gapiInitialized := gapiInitialized st;
             cachedFileId := cachedFileId st;
             fileCreated := fileCreated st;
             isCreatingFile := true;
             inits := inits st;
             queries := queries st;
             requests := requests st |}).

(** [if (!cachedFileId) cachedFileId = data.id; fileCreated = true]. *)
Definition remember (dataId : option string) : M () :=
  fun st =>
    (Resolved (),
     {| gapiInitialized := gapiInitialized st;
        cachedFileId :=
          if truthy (cachedFileId st) then cachedFileId st else dataId;
        fileCreated := true;
        isCreatingFile := isCreatingFile st;
        inits := inits st;
        queries := queries st;
        requests := requests st |}).

(** The upload; the name, the content and the MIME type travel in the body
    of the request and decide nothing else. It returns the [id] of the
    metadata received. *)
Definition uploadFileToGoogleDrive (fileName content mimeType : string)
  : M (option string) :=
  bindM initializeGoogleDrive (fun _ st =>
    let method := if isCreatingFile st then "POST" else "PATCH" in
    let url :=
      if truthy (cachedFileId st)
      then updateUrl (default "" (cachedFileId st))
      else createUrl in
    bindM markCreating (fun _ =>
      bindM (send method url) (fun res =>
        if negb (ok res) then
          throw (method +:+ " failed: "
                   +:+ PerfHelpers.digits (Z.of_nat (status res)))
        else
          bindM (fun st' => (json res, st')) (fun data =>
            bindM (remember data) (fun _ => ret data)))) st).

(** A run of uploads, one after the other, whatever each returns. *)
Definition uploads (calls : list (string * string * string)) (st : State)
  : State :=
  fold_left
    (fun st call =>
       (uploadFileToGoogleDrive call.1.1 call.1.2 call.2 st).2)
    calls st.

End Adapter.

End GoogleDrive.

(** The shape of the log of upload requests: nothing was sent and no file is
    being created, or the log starts with a PATCH to the creating URL and
    goes on with POSTs. *)
Definition uploadLog (st : GoogleDrive.State) : Prop :=
  (GoogleDrive.isCreatingFile st = false
   ∧ GoogleDrive.requests st = []
   ∧ GoogleDrive.truthy (GoogleDrive.cachedFileId st) = false)
  ∨ (GoogleDrive.isCreatingFile st = true
     ∧ ∃ rest,
         GoogleDrive.requests st = ("PATCH", GoogleDrive.createUrl) :: rest
         ∧ Forall (fun r => r.1 = "POST") rest).

(** ** perfHelpers: the geolocation lookup *)

Module GeoLookup.

(** Continent code → name map. *)
Definition CONTINENT_MAP : list (string * string) :=
  [ ("AF", "Africa"); ("AN", "Antarctica"); ("AS", "Asia"); ("EU", "Europe");
    ("NA", "North America"); ("OC", "Oceania"); ("SA", "South America") ].

(** The fields the lookup reads off the JSON document, [None] for a field
    that is missing. *)
Record GeoData : Type := {
  country_name : option string;
  continent_code : option string
}.

(** [{ country, continent }] as the lookup builds it. *)
Record GeoValue : Type := {
  country : string;
  continent : jsval
}.

Definition unknown : GeoValue :=
  {| country := "Unknown"; continent := JStr "Unknown" |}.

(** The key a table is read with: [undefined] reads the key
    ["undefined"]. *)
Definition keyOf (v : option string) : string := default "undefined" v.

Definition geoOf (data : GeoData) : GeoValue :=
  {| country :=
       match country_name data with
       | Some "" | None => "Unknown"
       | Some c => c
       end;
     continent :=
       let key := keyOf (continent_code data) in
       PerfHelpers.orUnknown
         (match Obj.get CONTINENT_MAP key with
          | Obj.Own v => Obj.Own (JStr v)
          | Obj.Inherited => Obj.Inherited
          | Obj.Undefined => Obj.Undefined
          end) key |}.

(** [lookupGeo], from the cache it finds to the cache it leaves. [reply] is
    what [fetch(...).then((r) => r.json())] comes to: the document
    ([None] for [null], whose fields cannot be read), a failure, or
    nothing. *)
Definition lookupGeo (reply : promise (option GeoData))
    (_geoCache : option GeoValue) : promise GeoValue * option GeoValue :=
  match _geoCache with
  | Some cached => (Resolved cached, _geoCache)
  | None =>
      match reply with
      | Resolved (Some data) => (Resolved (geoOf data), Some (geoOf data))
      | Resolved None | Rejected _ => (Resolved unknown, Some unknown)
      | Pending => (Pending, None)
      end
  end.

End GeoLookup.

(** ** The session: what its records are made of *)

(** A record comes from the hook's provider, a survey route that names a
    case directory, and a URL the builder returned for that directory. *)
Definition wellSourced (surveyRoutes : list string) (providerName : string)
    (buildUrls : string → promise (list string))
    (m : Metrics.MetricRecord) : Prop :=
  Metrics.storageProvider m = providerName
  ∧ Metrics.route m ∈ surveyRoutes
  ∧ ∃ caseDir urls,
      Metrics.caseDirOf (Metrics.route m) = Some caseDir
      ∧ buildUrls caseDir = Resolved urls
      ∧ Metrics.fileURL m ∈ urls.

(** A capture in flight holds a survey route that names a case directory,
    URLs the builder returned for it, and records made from them. *)
Definition wellSourcedCapture (surveyRoutes : list string)
    (providerName : string) (buildUrls : string → promise (list string))
    (c : Metrics.Capture) : Prop :=
  Metrics.routeKey c ∈ surveyRoutes
  ∧ (∃ caseDir urls,
       Metrics.caseDirOf (Metrics.routeKey c) = Some caseDir
       ∧ buildUrls caseDir = Resolved urls
       ∧ Metrics.pending c ⊆ urls)
  ∧ Forall (fun m => Metrics.route m = Metrics.routeKey c
                     ∧ wellSourced surveyRoutes providerName buildUrls m)
      (Metrics.newMetrics c).

(** A session whose log and captures are all well sourced. *)
Definition provenance (surveyRoutes : list string) (providerName : string)
    (buildUrls : string → promise (list string)) (s : Metrics.Session) : Prop :=
  Forall (wellSourced surveyRoutes providerName buildUrls) (Metrics.allMetrics s)
  ∧ Forall (wellSourcedCapture surveyRoutes providerName buildUrls)
      (Metrics.inflight s).

(** ** The report: the values of a line *)

(** The values [join] strings together for one record, in column order. *)
Definition reportCells (protoText : string → string)
    (m : Metrics.MetricRecord) : list string :=
  [ Metrics.route m; Metrics.storageProvider m; Metrics.mCountry m;
    Metrics.mContinent m; Metrics.fileURL m; Metrics.fileName m;
    Metrics.fileType m; Metrics.cellText protoText (Some (Metrics.size m));
    Metrics.fileSize m; Metrics.fetchTimeMs m; Metrics.throughputKBps m;
    Metrics.payloadKB m;
    PerfHelpers.digits (Z.of_nat (Metrics.headerSizeBytes m));
    Metrics.memoryDelta m ].

(** A string of decimal digits. *)
Fixpoint allDigits (s : string) : bool :=
  match s with
  | EmptyString => true
  | String c s' =>
      match Metrics.digitValue c with
      | Some _ => allDigits s'
      | None => false
      end
  end.

(** ** Further sample backends *)

Module Fixtures.

(** A drive on which every folder holds the same four files. *)
Definition crowdedDrive : OneDrive.Client :=
  {| OneDrive.get url :=
       Resolved
         {| OneDrive.value :=
              map (fun n => {| OneDrive.name := n; OneDrive.folder := false;
                               OneDrive.file := true |})
                [ "1.jpg"; "2.jpg"; "3.jpg"; "4.jpg" ];
            OneDrive.odata_nextLink := None |} |}.

Definition dropboxEntry (tag name : string) : Dropbox.Entry :=
  {| Dropbox.tag := tag; Dropbox.name := name;
     Dropbox.path_lower := "/dev/gallery/cases/" +:+ Str.toLowerCase name |}.

Definition casesPage1 : Dropbox.ListFolderResult :=
  {| Dropbox.entries :=
       [ dropboxEntry "folder" "image-case1"; dropboxEntry "file" "notes.txt" ];
     Dropbox.has_more := true;
     Dropbox.cursor := "c1" |}.

Definition casesPage2 : Dropbox.ListFolderResult :=
  {| Dropbox.entries := [ dropboxEntry "folder" "Audio-case2" ];
     Dropbox.has_more := true;
     Dropbox.cursor := "c2" |}.

Definition casesPage3 : Dropbox.ListFolderResult :=
  {| Dropbox.entries :=
       [ dropboxEntry "deleted" "old-case"; dropboxEntry "folder" "text-case4" ];
     Dropbox.has_more := false;
     Dropbox.cursor := "c3" |}.

(** The files of a case folder, on one page. *)
Definition filesPage (names : list string) : Dropbox.ListFolderResult :=
  {| Dropbox.entries := map (dropboxEntry "file") names;
     Dropbox.has_more := false;
     Dropbox.cursor := "" |}.

(** A Dropbox account that serves [/dev/gallery/cases] on three pages. *)
Definition pagedDropbox : Dropbox.Client :=
  {| Dropbox.filesListFolder path :=
       if String.eqb path "/dev/gallery/cases" then Resolved casesPage1
       else if String.eqb path "/dev/gallery/cases/image-case1" then
         Resolved (filesPage [ "a.jpg"; "b.jpg"; "c.jpg" ])
       else if String.eqb path "/dev/gallery/cases/Audio-case2" then
         Resolved (filesPage [ "a.mp3"; "b.mp3" ])
       else if String.eqb path "/dev/gallery/cases/text-case4" then
         Resolved (filesPage [ "a.txt" ])
       else Rejected "path/not_found";
     Dropbox.filesListFolderContinue cursor :=
       if String.eqb cursor "c1" then Resolved casesPage2
       else if String.eqb cursor "c2" then Resolved casesPage3
       else Rejected "reset" |}.

(** The same account when the second continuation call fails. *)
Definition flakyDropbox : Dropbox.Client :=
  {| Dropbox.filesListFolder := Dropbox.filesListFolder pagedDropbox;
     Dropbox.filesListFolderContinue cursor :=
       if String.eqb cursor "c1" then Resolved casesPage2
       else Rejected "too_many_requests" |}.

(** A Drive on which signing in succeeds, every listing returns the same two
    files, and every upload succeeds and answers with the id [f1]. *)
Definition steadyGapi : GoogleDrive.Gapi :=
  {| GoogleDrive.signIn n := Resolved ();
     GoogleDrive.filesList n q fields :=
       Resolved [ {| GoogleDrive.id := "d1"; GoogleDrive.name := "a.jpg" |};
                  {| GoogleDrive.id := "d2"; GoogleDrive.name := "b.jpg" |} ];
     GoogleDrive.accessToken := "token";
     GoogleDrive.fetch n method url :=
       Resolved {| GoogleDrive.ok := true; GoogleDrive.status := 200;
                   GoogleDrive.json := Resolved (Some "f1") |} |}.

(** The state of the module after one upload on that Drive. *)
Definition afterFirstUpload : GoogleDrive.State :=
  GoogleDrive.uploads steadyGapi [ ("responses.json", "{}", "application/json") ]
    GoogleDrive.initial.

(** The session of [Samples.afterFirstCase] once it has reached the end of
    the survey: the report is out, the capture of the second case is still
    in flight. *)
Definition afterExport : Metrics.Session :=
  Metrics.run Samples.lossyNet Samples.routes "local" Samples.localUrls
    Samples.nativeText Samples.afterFirstCase
    [ Metrics.Navigate "/app/survey/end" ].

End Fixtures.

(** * Properties *)

(** ** Promises *)

Section PromiseFacts.

Context {A : Type}.

Lemma Promise_all_resolved (ps : list (promise A)) (vs : list A) :
  Promise_all ps = Resolved vs ↔ Forall2 (fun p v => p = Resolved v) ps vs.
Proof.
  unfold Promise_all. split.
  - revert vs. induction ps as [|p ps IH]; intros vs H; simpl in *.
    + injection H as <-. constructor.
    + destruct p as [a|e|]; simpl in *; try discriminate.
      * destruct (first_rejection ps); [discriminate|].
        destruct (all_resolved ps) as [ws|]; simpl in *; [|discriminate].
        injection H as <-. constructor; [done|]. by apply IH.
      * destruct (first_rejection ps); discriminate.
  - induction 1 as [|p v ps vs -> _ IH]; simpl; [done|].
    destruct (first_rejection ps); [discriminate|].
    destruct (all_resolved ps); simpl; [|discriminate].
    by injection IH as ->.
Qed.

Lemma first_rejection_elem (ps : list (promise A)) (e : error) :
  Rejected e ∈ ps → is_Some (first_rejection ps).
Proof.
  induction ps as [|p ps IH]; intros H.
  - by apply elem_of_nil in H.
  - apply elem_of_cons in H as [<-|H]; simpl; [by eexists|].
    destruct p; eauto.
Qed.

Lemma Promise_all_rejected (ps : list (promise A)) (e : error) :
  Rejected e ∈ ps → ∃ e', Promise_all ps = Rejected e'.
Proof.
  intros H. destruct (first_rejection_elem _ _ H) as [e' He'].
  exists e'. unfold Promise_all. by rewrite He'.
Qed.

End PromiseFacts.

(** ** CaseValidator *)

Lemma leb_bool_decide (k n : nat) : (k <=? n) = bool_decide (k ≤ n).
Proof.
  destruct (Nat.leb_spec k n).
  - by rewrite bool_decide_eq_true_2.
  - rewrite bool_decide_eq_false_2; [done|lia].
Qed.

Lemma meetsRequirement_threshold (caseType : jsval) (n : nat) :
  CaseValidator.meetsRequirement caseType n =
    match thresholdOf caseType with
    | Some k => bool_decide (k ≤ n)
    | None => false
    end.
Proof.
  destruct caseType as [t| |]; simpl; try done.
  unfold requiredAssetCount.
  repeat match goal with
         | |- context [String.eqb t ?s] =>
             destruct (String.eqb_spec t s) as [->|?]; simpl
         end; by rewrite <- ?leb_bool_decide.
Qed.

(** C1. For every folder path and case type, once the listing of the path
    has returned its files, [checkAssets] returns whether their number
    reaches the threshold of the type (3 for image and hybrid, 2 for audio,
    video and text), and returns false, not an error, for any other type. *)
Theorem checkAssets_threshold {Item : Type}
    (listFiles : string → string → promise (list Item))
    (folderPath : string) (caseType : jsval) (files : list Item) :
  listFiles folderPath "" = Resolved files →
  CaseValidator.checkAssets listFiles folderPath caseType =
    Resolved
      match thresholdOf caseType with
      | Some k => bool_decide (k ≤ length files)
      | None => false
      end.
Proof.
  intros Hlist. unfold CaseValidator.checkAssets. rewrite Hlist. simpl.
  by rewrite meetsRequirement_threshold.
Qed.

Lemma checkAssets_threshold_witness :
  OneDrive.checkAssetsInOneDrive "dev" Samples.brokenDrive
    "/gallery/cases/image-case1" (JStr "image") = Resolved true.
Proof.
  exact (checkAssets_threshold
           (OneDrive.listFilesFromOneDrive "dev" Samples.brokenDrive)
           "/gallery/cases/image-case1" (JStr "image") _ eq_refl).
Defined.

Lemma checkAssets_rejected {Item : Type}
    (listFiles : string → string → promise (list Item))
    (folderPath : string) (caseType : jsval) (e : error) :
  listFiles folderPath "" = Rejected e →
  CaseValidator.checkAssets listFiles folderPath caseType = Rejected e.
Proof. intros H. unfold CaseValidator.checkAssets. by rewrite H. Qed.

(** When every listing returns, the batch returns one flag per case, in the
    order of the names. *)
Lemma validateCases_resolved {Item : Type}
    (listFiles : string → string → promise (list Item))
    (casesFolder : string) (cases : list string) (flags : list bool) :
  ValidateCases.validateCases listFiles casesFolder cases = Resolved flags ↔
  Forall2
    (fun caseName flag =>
       ∃ files, listFiles (casesFolder +:+ caseName) "" = Resolved files
                ∧ flag = CaseValidator.meetsRequirement
                           (caseTypeOf (casePrefix caseName)) (length files))
    cases flags.
Proof.
  unfold ValidateCases.validateCases. rewrite Promise_all_resolved.
  rewrite Forall2_fmap_l.
  split; intros H; eapply Forall2_impl; try exact H;
    intros caseName flag; simpl; unfold CaseValidator.checkAssets;
    destruct (listFiles _ _) as [files| |]; simpl.
  - intros [= <-]. by exists files.
  - done.
  - done.
  - by intros (files' & [= <-] & ->).
  - by intros (? & ? & _).
  - by intros (? & ? & _).
Qed.

(** C4, as the code has it. When the listing of one case of the batch
    fails, [validateCases] fails as a whole: it is rejected, and returns no
    flag for any case. *)
Theorem validateCases_failure_rejects_batch {Item : Type}
    (listFiles : string → string → promise (list Item))
    (casesFolder : string) (cases : list string) (caseName : string)
    (e : error) :
  caseName ∈ cases →
  listFiles (casesFolder +:+ caseName) "" = Rejected e →
  ∃ e', ValidateCases.validateCases listFiles casesFolder cases = Rejected e'.
Proof.
  intros Hin Hfail. unfold ValidateCases.validateCases.
  apply Promise_all_rejected with e.
  apply list_elem_of_fmap. exists caseName. split; [|done].
  symmetry. by apply checkAssets_rejected.
Qed.

Lemma validateCases_failure_rejects_batch_witness :
  ∃ e', OneDrive.validateCasesInOneDrive "dev" Samples.brokenDrive
          ["image-case1"; "audio-case2"] = Rejected e'.
Proof.
  apply (validateCases_failure_rejects_batch
           (OneDrive.listFilesFromOneDrive "dev" Samples.brokenDrive)
           "/gallery/cases/" ["image-case1"; "audio-case2"] "audio-case2"
           "Request failed with status code 404").
  - apply list_elem_of_In. simpl. tauto.
  - reflexivity.
Defined.

(** C4, as stated, fails: the listing of [image-case1] returns three files
    and that of [audio-case2] fails; the batch is rejected, so no result is
    returned for [image-case1] and no [false] is recorded for
    [audio-case2]. *)
Lemma validateCases_no_partial_result :
  OneDrive.listFilesFromOneDrive "dev" Samples.brokenDrive
    "/gallery/cases/audio-case2" ""
    = Rejected "Request failed with status code 404"
  ∧ OneDrive.checkAssetsInOneDrive "dev" Samples.brokenDrive
      "/gallery/cases/image-case1" (JStr "image") = Resolved true
  ∧ ¬ ∃ flags,
        OneDrive.validateCasesInOneDrive "dev" Samples.brokenDrive
          ["image-case1"; "audio-case2"] = Resolved flags
        ∧ flags !! 1 = Some false.
Proof.
  split; [reflexivity|]. split; [reflexivity|].
  intros (flags & H & _). vm_compute in H. discriminate.
Qed.

(** ** Listings and pagination *)

(** The Dropbox loop follows every cursor: when the listing is served in
    [n] further pages, any run allowed at least [n] continuation calls
    returns all the entries. *)
Lemma listAllEntries_loop_complete (dbx : Dropbox.Client)
    (r : Dropbox.ListFolderResult) (all : list Dropbox.Entry) (n : nat) :
  Dropbox.served dbx r all n →
  ∀ fuel acc, n ≤ fuel →
    Dropbox.listAllEntries_loop dbx fuel r (acc ++ Dropbox.entries r)
      = Resolved (acc ++ all).
Proof.
  induction 1 as [r Hlast|r r' rest n Hmore Hnext _ IH]; intros fuel acc Hfuel.
  - destruct fuel; simpl; by rewrite Hlast.
  - destruct fuel as [|fuel]; [lia|]. simpl. rewrite Hmore, Hnext. simpl.
    rewrite (assoc_L (++)). apply IH. lia.
Qed.

Lemma listFolders_dropbox_complete (ROOT_DIR : string) (dbx : Dropbox.Client)
    (path : string) (r : Dropbox.ListFolderResult)
    (all : list Dropbox.Entry) (n fuel : nat) :
  Dropbox.filesListFolder dbx (ROOT_DIR +:+ path) = Resolved r →
  Dropbox.served dbx r all n →
  n ≤ fuel →
  Dropbox.listFolders ROOT_DIR dbx fuel path =
    Resolved
      (map Dropbox.name
         (List.filter (fun entry => String.eqb (Dropbox.tag entry) "folder") all)).
Proof.
  intros Hfirst Hserved Hfuel. unfold Dropbox.listFolders, Dropbox.listAllEntries.
  rewrite Hfirst. unfold Async.bind at 2.
  by rewrite (listAllEntries_loop_complete dbx r all n Hserved fuel [] Hfuel).
Qed.

(** The OneDrive listing reads the first page and nothing else. *)
Lemma listFoldersFromOneDrive_first_page (root : string)
    (client : OneDrive.Client) (path : string) (r : OneDrive.Children) :
  OneDrive.get client (OneDrive.childrenUrl root path) = Resolved r →
  OneDrive.listFoldersFromOneDrive root client path =
    Resolved
      (map OneDrive.name
         (List.filter (fun item => OneDrive.folder item) (OneDrive.value r))).
Proof. intros H. unfold OneDrive.listFoldersFromOneDrive. by rewrite H. Qed.

(** C3 at a drive that serves [gallery/cases] on two pages: the folder on
    the second page is missing from the result, which holds one name where
    the collection has two folders. *)
Theorem listFoldersFromOneDrive_undercounts :
  OneDrive.get Samples.pagedDrive (OneDrive.childrenUrl "dev" "gallery/cases")
    = Resolved Samples.firstPage
  ∧ OneDrive.collection Samples.pagedDrive Samples.firstPage
      [Samples.folderItem "image-case1"; Samples.folderItem "audio-case2"]
  ∧ OneDrive.listFoldersFromOneDrive "dev" Samples.pagedDrive "gallery/cases"
      = Resolved ["image-case1"].
Proof.
  split; [reflexivity|]. split; [|reflexivity].
  apply (OneDrive.collection_next Samples.pagedDrive Samples.firstPage
           "/root:/dev/gallery/cases:/children?$skiptoken=1"
           Samples.secondPage [Samples.folderItem "audio-case2"]);
    [reflexivity|reflexivity|].
  by apply (OneDrive.collection_last Samples.pagedDrive Samples.secondPage).
Qed.

(** ** Object tables *)

Section ObjFacts.

Context {V : Type}.

Lemma own_set_eq (o : list (string * V)) (k : string) (v : V) :
  Obj.own (Obj.set o k v) k = Some v.
Proof.
  induction o as [|[k' w] o IH]; simpl.
  - by rewrite String.eqb_refl.
  - destruct (String.eqb k' k) eqn:E; simpl; by rewrite E.
Qed.

Lemma own_set_ne (o : list (string * V)) (k k' : string) (v : V) :
  k ≠ k' → Obj.own (Obj.set o k v) k' = Obj.own o k'.
Proof.
  intros Hne. induction o as [|[k0 w] o IH]; simpl.
  - destruct (String.eqb_spec k k'); [done|done].
  - destruct (String.eqb_spec k0 k) as [->|]; simpl.
    + destruct (String.eqb_spec k k'); [done|done].
    + destruct (String.eqb_spec k0 k'); [done|apply IH].
Qed.

Lemma own_Forall (P : V → Prop) (o : list (string * V)) (k : string) (v : V) :
  Forall (fun kv => P kv.2) o → Obj.own o k = Some v → P v.
Proof.
  induction 1 as [|[k' w] o Hw _ IH]; simpl; [done|].
  destruct (String.eqb k' k); [by intros [= <-]|done].
Qed.

End ObjFacts.

(** ** perfHelpers *)

Import PerfHelpers.

Lemma sizeMapStep_labels (map map' : list (string * jsval)) (fileName : string) :
  sizeMapStep map fileName = Some map' → labelled map' fileName.
Proof.
  unfold sizeMapStep, labelled.
  destruct (Str.split "-" fileName !! 1) as [segment|]; [|done].
  intros [= <-]. exists segment. by rewrite own_set_eq.
Qed.

Lemma sizeMapStep_keeps (map map' : list (string * jsval)) (fileName f : string) :
  sizeMapStep map fileName = Some map' → labelled map f → labelled map' f.
Proof.
  intros Hstep Hf. destruct (decide (fileName = f)) as [->|Hne].
  - by eapply sizeMapStep_labels.
  - revert Hstep. unfold sizeMapStep.
    destruct (Str.split "-" fileName !! 1) as [segment|]; [|done].
    intros [= <-]. destruct Hf as (seg & Hseg & Hown).
    exists seg. by rewrite own_set_ne.
Qed.

Lemma reduceSizeMap_keeps (files : list string) (map map' : list (string * jsval))
    (f : string) :
  reduceSizeMap files map = Some map' → labelled map f → labelled map' f.
Proof.
  revert map. induction files as [|fileName files IH]; intros map; simpl.
  - by intros [= <-].
  - destruct (sizeMapStep map fileName) as [map1|] eqn:Hstep; [|done].
    intros Hred Hf. eapply IH; [done|]. by eapply sizeMapStep_keeps.
Qed.

(** Every name of a manifest the reducer accepts is keyed by the first
    character of the second hyphen-separated segment of the name. *)
Lemma reduceSizeMap_labels (files : list string) (map map' : list (string * jsval))
    (f : string) :
  reduceSizeMap files map = Some map' → f ∈ files → labelled map' f.
Proof.
  revert map. induction files as [|fileName files IH]; intros map; simpl.
  - intros _ H. by apply elem_of_nil in H.
  - destruct (sizeMapStep map fileName) as [map1|] eqn:Hstep; [|done].
    intros Hred [->|Hin]%elem_of_cons.
    + eapply reduceSizeMap_keeps; [done|]. by eapply sizeMapStep_labels.
    + by eapply IH.
Qed.

Lemma sizeLabel_fallback (key : string) :
  Obj.inherited key = false →
  key ∉ ["a"; "b"; "c"] → sizeLabel key = JStr "unknown".
Proof.
  intros Hproto Hkey. unfold sizeLabel, Obj.get, SIZE_LABEL_MAP.
  cbn [Obj.own].
  repeat match goal with
         | |- context [String.eqb ?s key] =>
             destruct (String.eqb_spec s key) as [<-|?];
               [exfalso; apply Hkey; set_solver|]
         end.
  by rewrite Hproto.
Qed.

(** C9. For every file name of [ALL_FILES], [SIZE_MAP] holds the label keyed
    by the first character of the second hyphen-separated segment of the
    name, ["unknown"] when that character is none of a, b, c; so every entry
    of [SIZE_MAP] is ["unknown"], although every name of the manifest ends
    in [-a] or [-b] followed by its extension. *)
Theorem SIZE_MAP_keyed_by_second_segment :
  reduceSizeMap ALL_FILES [] = Some SIZE_MAP
  ∧ (∀ fileName, fileName ∈ ALL_FILES →
       ∃ segment,
         Str.split "-" fileName !! 1 = Some segment
         ∧ Obj.own SIZE_MAP fileName = Some (sizeLabel (Str.charAt0 segment))
         ∧ (Str.charAt0 segment ∉ ["a"; "b"; "c"] →
            sizeLabel (Str.charAt0 segment) = JStr "unknown"))
  ∧ (∀ fileName v, Obj.own SIZE_MAP fileName = Some v → v = JStr "unknown")
  ∧ (∀ fileName, fileName ∈ ALL_FILES →
       ∃ stem letter extension,
         fileName = stem +:+ "-" +:+ letter +:+ "." +:+ extension
         ∧ (letter = "a" ∨ letter = "b")
         ∧ Str.split "-" extension = [extension]
         ∧ Str.split "." extension = [extension]).
Proof.
  assert (Hload : reduceSizeMap ALL_FILES [] = Some SIZE_MAP) by reflexivity.
  split; [done|]. split; [|split].
  - intros fileName Hin.
    destruct (reduceSizeMap_labels _ _ _ fileName Hload Hin) as (seg & Hseg & Hown).
    exists seg. split; [done|]. split; [done|].
    apply sizeLabel_fallback.
    unfold ALL_FILES in Hin.
    repeat (apply elem_of_cons in Hin as [->|Hin];
            [vm_compute in Hseg; by injection Hseg as <-|]).
    by apply elem_of_nil in Hin.
  - intros fileName v. apply (own_Forall (fun v => v = JStr "unknown")).
    unfold SIZE_MAP. rewrite Hload. simpl. repeat constructor.
  - intros fileName Hin. unfold ALL_FILES in Hin.
    repeat (apply elem_of_cons in Hin as [->|Hin]).
    + by exists "video-test1", "a", "mp4"; auto.
    + by exists "video-test1", "b", "mp4"; auto.
    + by exists "video-test2", "a", "mp4"; auto.
    + by exists "audio-test1", "a", "mp3"; auto.
    + by exists "audio-test1", "b", "mp3"; auto.
    + by exists "audio-test2", "a", "mp3"; auto.
    + by exists "image-test", "a", "jpg"; auto.
    + by exists "image-test", "b", "jpg"; auto.
    + by exists "text-sample", "a", "txt"; auto.
    + by apply elem_of_nil in Hin.
Qed.

(** ** The timing loop *)

Import Metrics.

Section TimingFacts.

Variable net : Network.
Variable url : string.

(** Past cycle 0 the loop adds the duration of every request that
    succeeds, counts it, and leaves the header size alone. *)
Lemma timingLoop_timed (remaining i : nat) (acc : Timing) (issued : list string) :
  0 < i →
  let timed :=
    omap (fun n => elapsed (net n url)) (seq (length issued) remaining) in
  timingLoop net url remaining i acc issued =
    ({| sumFetch := fold_left Qplus timed (sumFetch acc);
        count := count acc + length timed;
        headerSize := headerSize acc |},
     issued ++ replicate remaining url).
Proof.
  revert i acc issued.
  induction remaining as [|remaining IH]; intros i acc issued Hi.
  - simpl. rewrite Nat.add_0_r, app_nil_r. by destruct acc.
  - assert (Hseq : omap (fun n => elapsed (net n url))
                     (seq (length issued) (S remaining))
                   = match elapsed (net (length issued) url) with
                     | Some d =>
                         d :: omap (fun n => elapsed (net n url))
                                (seq (S (length issued)) remaining)
                     | None =>
                         omap (fun n => elapsed (net n url))
                           (seq (S (length issued)) remaining)
                     end) by reflexivity.
    cbv zeta. rewrite Hseq. clear Hseq.
    cbn [timingLoop replicate].
    destruct (settled (net (length issued) url)) as [[resp t1]|] eqn:Hs.
    + assert (Hel : elapsed (net (length issued) url)
                    = Some (t1 - started (net (length issued) url))%Q)
        by (unfold elapsed; by rewrite Hs).
      rewrite Hel. destruct i as [|i]; [lia|]. cbn [Nat.eqb].
      rewrite IH by lia. cbv zeta. cbn [sumFetch count headerSize].
      rewrite length_app. cbn [length fold_left].
      rewrite Nat.add_1_r, <- (assoc_L (++)), Nat.add_succ_r. reflexivity.
    + assert (Hel : elapsed (net (length issued) url) = None)
        by (unfold elapsed; by rewrite Hs).
      rewrite Hel, IH by lia. cbv zeta.
      rewrite length_app. cbn [length].
      rewrite Nat.add_1_r, <- (assoc_L (++)). reflexivity.
Qed.

Lemma timingLoop_first (remaining : nat) (acc : Timing) (issued : list string) :
  timingLoop net url (S remaining) 0 acc issued =
    match settled (net (length issued) url) with
    | None => timingLoop net url remaining 1 acc (issued ++ [url])
    | Some (resp, _) =>
        timingLoop net url remaining 1
          {| sumFetch := sumFetch acc;
             count := count acc;
             headerSize := headerBytes resp |} (issued ++ [url])
    end.
Proof.
  cbn [timingLoop Nat.eqb].
  by destruct (settled (net (length issued) url)) as [[resp t1]|].
Qed.

(** The whole loop: seven requests, the first of which only probes the
    headers. *)
Lemma timingLoop_run (issued : list string) :
  timingLoop net url ITER 0
    {| sumFetch := 0; count := 0; headerSize := 0 |} issued =
    ({| sumFetch := Qsum (timedCycles net url (length issued));
        count := length (timedCycles net url (length issued));
        headerSize := probedHeaderSize net url (length issued) |},
     issued ++ replicate 7 url).
Proof.
  unfold ITER, probedHeaderSize, timedCycles, Qsum.
  rewrite timingLoop_first.
  destruct (settled (net (length issued) url)) as [[resp t1]|];
    rewrite timingLoop_timed by lia; cbn [sumFetch count headerSize];
    rewrite length_app, Nat.add_1_r, <- (assoc_L (++)); reflexivity.
Qed.

Lemma avgFetchOf_mean (l : list Q) (h : nat) :
  avgFetchOf {| sumFetch := Qsum l; count := length l; headerSize := h |}
    = mean l.
Proof. by destruct l. Qed.

Lemma measure_record (routeKey providerName : string) (loc : Geo)
    (issued : list string) :
  let m := (measure net url routeKey providerName loc issued).1 in
  fileURL m = url
  ∧ fetchTimeMs m = toFixed2 (mean (timedCycles net url (length issued)))
  ∧ headerSizeBytes m = probedHeaderSize net url (length issued)
  ∧ (measure net url routeKey providerName loc issued).2
      = issued ++ replicate 8 url.
Proof.
  unfold measure. rewrite timingLoop_run. cbn [fst snd].
  rewrite avgFetchOf_mean. cbn [fileURL fetchTimeMs headerSizeBytes].
  repeat split. by rewrite <- (assoc_L (++)).
Qed.

End TimingFacts.





(** ** CaseSelector *)

Lemma caseTypeOf_inherited (prefix : string) :
  Obj.inherited prefix = true → caseTypeOf prefix = JProto prefix.
Proof.
  intros Hproto. unfold caseTypeOf, Obj.get, lookup. cbn [Obj.own].
  repeat match goal with
         | |- context [String.eqb ?s prefix] =>
             destruct (String.eqb_spec s prefix) as [<-|?];
               [by vm_compute in Hproto|]
         end.
  by rewrite Hproto.
Qed.

(** A name whose prefix is an inherited key is never valid: the table read
    yields an object, which is none of the case types. *)
Lemma valid_prefix_not_inherited {Item : Type}
    (listFiles : string → string → promise (list Item))
    (casesFolder : string) (cases : list string) (flags : list bool) :
  ValidateCases.validateCases listFiles casesFolder cases = Resolved flags →
  Forall (fun c => Obj.inherited (casePrefix c) = false)
    (filterByFlags cases flags).
Proof.
  rewrite validateCases_resolved.
  induction 1 as [|c flag cases flags (files & _ & Hflag) _ IH]; simpl.
  - constructor.
  - destruct flag; [|done]. constructor; [|done].
    destruct (Obj.inherited (casePrefix c)) eqn:Hproto; [|done].
    by rewrite (caseTypeOf_inherited _ Hproto) in Hflag.
Qed.

Lemma inBucket_cons (key c : string) (names : list string) :
  inBucket key (c :: names) = inBucket key [c] ++ inBucket key names.
Proof. unfold inBucket. simpl. by destruct (String.eqb (bucketOf c) key). Qed.

Lemma pushCase_buckets (bi ba bv bt bh : list string) (c : string) :
  Obj.inherited (casePrefix c) = false →
  Azure.pushCase
    [ ("image", bi); ("audio", ba); ("video", bv); ("text", bt); ("hybrid", bh) ]
    c =
  Resolved
    [ ("image", bi ++ inBucket "image" [c]);
      ("audio", ba ++ inBucket "audio" [c]);
      ("video", bv ++ inBucket "video" [c]);
      ("text", bt ++ inBucket "text" [c]);
      ("hybrid", bh ++ inBucket "hybrid" [c]) ].
Proof.
  intros Hproto. unfold Azure.pushCase, Obj.get, inBucket, bucketOf.
  cbn [Obj.own List.filter]. revert Hproto.
  generalize (casePrefix c). intros key Hproto.
  destruct (String.eqb_spec "image" key) as [<-|?];
    [by rewrite !app_nil_r|].
  destruct (String.eqb_spec "audio" key) as [<-|?];
    [by rewrite !app_nil_r|].
  destruct (String.eqb_spec "video" key) as [<-|?];
    [by rewrite !app_nil_r|].
  destruct (String.eqb_spec "text" key) as [<-|?];
    [by rewrite !app_nil_r|].
  destruct (String.eqb_spec "hybrid" key) as [<-|?];
    [by rewrite !app_nil_r|].
  rewrite Hproto, bool_decide_eq_false_2; [by rewrite !app_nil_r|].
  intros Hin. repeat (apply elem_of_cons in Hin as [->|Hin]); try done.
  by apply elem_of_nil in Hin.
Qed.

Lemma fillBuckets_buckets (valid : list string) :
  Forall (fun c => Obj.inherited (casePrefix c) = false) valid →
  ∀ bi ba bv bt bh,
    Azure.fillBuckets
      [ ("image", bi); ("audio", ba); ("video", bv); ("text", bt); ("hybrid", bh) ]
      valid =
    Resolved
      [ ("image", bi ++ inBucket "image" valid);
        ("audio", ba ++ inBucket "audio" valid);
        ("video", bv ++ inBucket "video" valid);
        ("text", bt ++ inBucket "text" valid);
        ("hybrid", bh ++ inBucket "hybrid" valid) ].
Proof.
  induction 1 as [|c valid Hc _ IH]; intros bi ba bv bt bh.
  - unfold inBucket. simpl. by rewrite !app_nil_r.
  - cbn [Azure.fillBuckets]. rewrite pushCase_buckets by done.
    cbn [Async.bind]. rewrite IH.
    by rewrite !(inBucket_cons _ c valid), !(assoc_L (++)).
Qed.

Lemma bucketOf_cases (c : string) :
  bucketOf c ∈ ["image"; "hybrid"; "video"; "audio"; "text"].
Proof.
  unfold bucketOf. case_bool_decide; [done|]. apply elem_of_cons. by left.
Qed.

(** The five buckets, in the order they are concatenated, hold the names
    once each. *)
Lemma buckets_partition (valid : list string) :
  inBucket "image" valid ++ inBucket "hybrid" valid ++ inBucket "video" valid
    ++ inBucket "audio" valid ++ inBucket "text" valid ≡ₚ valid.
Proof.
  induction valid as [|c valid IH]; [done|].
  rewrite !(inBucket_cons _ c valid). unfold inBucket at 1 3 5 7 9.
  cbn [List.filter].
  pose proof (bucketOf_cases c) as Hc.
  repeat (apply elem_of_cons in Hc as [->|Hc]); [ | | | | |by apply elem_of_nil in Hc];
    cbn [String.eqb Ascii.eqb Bool.eqb app];
    rewrite <- ?Permutation_middle; by rewrite IH.
Qed.

Section Categorized.

Variable ROOT_DIR : string.
Variable client : Azure.ContainerClient.
Variable rng : Type.
Variable shuffle : rng → list string → list string * rng.

Lemma concatShuffled_buckets (g : rng) (valid : list string) :
  (∀ g l, (shuffle g l).1 ≡ₚ l) →
  ∃ image hybrid video audio text,
    Azure.concatShuffled rng shuffle g
      [ ("image", inBucket "image" valid);
        ("audio", inBucket "audio" valid);
        ("video", inBucket "video" valid);
        ("text", inBucket "text" valid);
        ("hybrid", inBucket "hybrid" valid) ]
      = image ++ hybrid ++ video ++ audio ++ text
    ∧ image ≡ₚ inBucket "image" valid
    ∧ hybrid ≡ₚ inBucket "hybrid" valid
    ∧ video ≡ₚ inBucket "video" valid
    ∧ audio ≡ₚ inBucket "audio" valid
    ∧ text ≡ₚ inBucket "text" valid.
Proof.
  intros Hperm. unfold Azure.concatShuffled, Azure.bucket. cbn [Obj.own].
  cbn [String.eqb Ascii.eqb Bool.eqb from_option]. unfold id.
  pose proof (Hperm g (inBucket "image" valid)) as Hi.
  destruct (shuffle g (inBucket "image" valid)) as [image g1].
  pose proof (Hperm g1 (inBucket "hybrid" valid)) as Hh.
  destruct (shuffle g1 (inBucket "hybrid" valid)) as [hybrid g2].
  pose proof (Hperm g2 (inBucket "video" valid)) as Hv.
  destruct (shuffle g2 (inBucket "video" valid)) as [video g3].
  pose proof (Hperm g3 (inBucket "audio" valid)) as Ha.
  destruct (shuffle g3 (inBucket "audio" valid)) as [audio g4].
  pose proof (Hperm g4 (inBucket "text" valid)) as Ht.
  destruct (shuffle g4 (inBucket "text" valid)) as [text g5].
  by exists image, hybrid, video, audio, text.
Qed.

(** C7. Given a shuffle that permutes, and once the candidates are known
    and validated, [fetchCases] in [categorized] mode returns the valid
    names bucketed by prefix (a prefix that is no case type counts as
    [image]): a permutation of the image bucket, then one of the hybrid,
    video, audio and text buckets in this order, each from a shuffle of
    its own; the result is a permutation of the valid names. *)
Theorem fetchCases_categorized (g : rng) (configExists : bool)
    (path : string) (cases candidate : list string) (flags : list bool) :
  (∀ g l, (shuffle g l).1 ≡ₚ l) →
  (if configExists then Resolved cases
   else let/await folders := Azure.listFoldersFromAzure ROOT_DIR client path in
        Azure.definedNames folders) = Resolved candidate →
  Azure.validateCasesInAzure ROOT_DIR client candidate = Resolved flags →
  let valid := filterByFlags candidate flags in
  ∃ image hybrid video audio text,
    Azure.fetchCasesFromAzure ROOT_DIR client rng shuffle g configExists path
      cases "categorized"
      = Resolved (image ++ hybrid ++ video ++ audio ++ text)
    ∧ image ≡ₚ inBucket "image" valid
    ∧ hybrid ≡ₚ inBucket "hybrid" valid
    ∧ video ≡ₚ inBucket "video" valid
    ∧ audio ≡ₚ inBucket "audio" valid
    ∧ text ≡ₚ inBucket "text" valid
    ∧ image ++ hybrid ++ video ++ audio ++ text ≡ₚ valid.
Proof.
  intros Hperm Hcand Hflags valid.
  destruct (concatShuffled_buckets g valid Hperm)
    as (image & hybrid & video & audio & text & Heq & Hi & Hh & Hv & Ha & Ht).
  exists image, hybrid, video, audio, text.
  split; [|repeat (split; [done|])].
  - unfold Azure.fetchCasesFromAzure. rewrite Hcand. cbn [Async.bind].
    rewrite Hflags. cbn [Async.bind]. fold valid.
    change (String.eqb "categorized" "categorized") with true. cbv iota.
    unfold Azure.emptyBuckets.
    rewrite (fillBuckets_buckets valid
               (valid_prefix_not_inherited _ _ _ _ Hflags)).
    cbn [Async.bind app]. by rewrite Heq.
  - rewrite Hi, Hh, Hv, Ha, Ht. apply buckets_partition.
Qed.

End Categorized.

Lemma fetchCases_categorized_witness :
  ∃ image hybrid video audio text,
    Azure.fetchCasesFromAzure "dev" Samples.container unit Samples.reversing tt
      false "gallery/cases/" [] "categorized"
      = Resolved (image ++ hybrid ++ video ++ audio ++ text)
    ∧ image = ["misc-case5"; "image-case1"]
    ∧ hybrid = []
    ∧ video = ["Video-case3"]
    ∧ audio = ["audio-case2"]
    ∧ text = [].
Proof.
  destruct (fetchCases_categorized "dev" Samples.container unit
              Samples.reversing tt false "gallery/cases/" []
              [ "audio-case2"; "image-case1"; "text-case4"; "Video-case3";
                "misc-case5" ]
              [ true; true; false; true; true ]
              (fun g l => Permutation_sym (Permutation_rev l)) eq_refl eq_refl)
    as (image & hybrid & video & audio & text & Heq & _).
  vm_compute in Heq.
  exists ["misc-case5"; "image-case1"], [], ["Video-case3"], ["audio-case2"], [].
  vm_compute. repeat split.
Defined.

(** ** The session *)

Section SessionFacts.

Variable net : Network.
Variable surveyRoutes : list string.
Variable providerName : string.
Variable buildUrls : string → promise (list string).
Variable protoText : string → string.

Local Abbreviation captureEffect := (Metrics.captureEffect surveyRoutes buildUrls).
Local Abbreviation downloadEffect := (Metrics.downloadEffect providerName protoText).
Local Abbreviation advance := (Metrics.advance net providerName protoText).
Local Abbreviation step := (Metrics.step net surveyRoutes providerName buildUrls protoText).
Local Abbreviation mount := (Metrics.mount surveyRoutes providerName buildUrls protoText).
Local Abbreviation run := (Metrics.run net surveyRoutes providerName buildUrls protoText).

(** A property of the first render that every event keeps holds all along
    the session. *)
Lemma run_invariant (P : Session → Prop) (r : string) :
  P (mount r) →
  (∀ s e, P s → P (step s e)) →
  ∀ events, P (run (mount r) events).
Proof.
  intros Hmount Hstep events. unfold Metrics.run.
  generalize (mount r) Hmount.
  induction events as [|e events IH]; intros s Hs; simpl; [done|].
  apply IH. by apply Hstep.
Qed.

(** *** What each effect leaves alone *)

Lemma captureEffect_created (s : Session) :
  created (captureEffect s) = created s.
Proof.
  unfold Metrics.captureEffect, created. repeat case_match; try done.
  simpl. by rewrite flat_map_app, !app_nil_r.
Qed.

Lemma captureEffect_recorded (s : Session) :
  recorded (captureEffect s) = recorded s.
Proof. unfold Metrics.captureEffect. by repeat case_match. Qed.

Lemma captureEffect_downloads (s : Session) :
  downloads (captureEffect s) = downloads s
  ∧ hasDownloaded (captureEffect s) = hasDownloaded s.
Proof. unfold Metrics.captureEffect. by repeat case_match. Qed.

Lemma downloadEffect_created (s : Session) :
  created (downloadEffect s) = created s.
Proof.
  unfold Metrics.downloadEffect, created.
  destruct (allMetrics s) as [|first log] eqn:Hlog; [by rewrite Hlog|].
  destruct (_ && _); simpl; by rewrite ?Hlog.
Qed.

Lemma downloadEffect_recorded (s : Session) :
  recorded (downloadEffect s) = recorded s.
Proof.
  unfold Metrics.downloadEffect.
  destruct (allMetrics s); [done|]. by destruct (_ && _).
Qed.

(** *** One record per URL *)

Lemma deduplicated_perm (s s' : Session) :
  created s' ≡ₚ created s →
  recorded s' = recorded s →
  deduplicated s → deduplicated s'.
Proof.
  intros Hc Hr [Hnd Hrec]. split.
  - by rewrite (Permutation_map fileURL Hc).
  - intros m Hm. rewrite Hr. apply Hrec. by rewrite <- Hc.
Qed.

Lemma created_at (s : Session) (k : nat) (c : Capture) :
  inflight s !! k = Some c →
  created s =
    allMetrics s ++ flat_map newMetrics (take k (inflight s))
      ++ newMetrics c ++ flat_map newMetrics (drop (S k) (inflight s)).
Proof.
  intros Hk. unfold created.
  rewrite <- (take_drop_middle (inflight s) k c Hk) at 1.
  by rewrite flat_map_app.
Qed.

Lemma advance_deduplicated (k : nat) (s : Session) :
  deduplicated s → deduplicated (advance k s).
Proof.
  intros Hs. unfold Metrics.advance.
  destruct (inflight s !! k) as [c|] eqn:Hk; [|done].
  pose proof (lookup_lt_Some _ _ _ Hk) as Hlt.
  destruct (pending c) as [|url rest].
  - (* the loop is over: the records move to the log *)
    eapply deduplicated_perm; [| |exact Hs].
    + rewrite downloadEffect_created, (created_at s k c Hk).
      unfold created. cbn [allMetrics inflight].
      rewrite delete_take_drop, flat_map_app, <- !(assoc_L (++)).
      apply Permutation_app_head. rewrite !(assoc_L (++)).
      apply Permutation_app_tail, Permutation_app_comm.
    + by rewrite downloadEffect_recorded.
  - case_bool_decide as Hseen.
    + (* a URL already seen is skipped *)
      eapply deduplicated_perm; [| |exact Hs]; [|done].
      rewrite (created_at s k c Hk). unfold created. cbn [allMetrics inflight].
      by rewrite insert_take_drop, flat_map_app by done.
    + (* a new URL is marked, measured and recorded *)
      destruct (measure net url (routeKey c) providerName (captured c) (issued s))
        as [m issued'] eqn:Hm.
      assert (Hurl : fileURL m = url).
      { pose proof (measure_record net url (routeKey c) providerName
                      (captured c) (issued s)) as (Hu & _).
        by rewrite Hm in Hu. }
      destruct Hs as [Hnd Hrec].
      assert (Hperm : created
                {| currentRoute := currentRoute s;
                   location := location s;
                   allMetrics := allMetrics s;
                   recorded := {[url]} ∪ recorded s;
                   hasDownloaded := hasDownloaded s;
                   inflight :=
                     <[k:={| routeKey := routeKey c;
                             captured := captured c;
                             pending := rest;
                             newMetrics := newMetrics c ++ [m] |}]> (inflight s);
                   downloads := downloads s;
                   issued := issued' |} ≡ₚ m :: created s).
      { rewrite (created_at s k c Hk). unfold created. cbn [allMetrics inflight].
        rewrite insert_take_drop, flat_map_app by done.
        cbn [flat_map newMetrics]. rewrite <- !(assoc_L (++)). cbn [app].
        by rewrite <- !Permutation_middle. }
      split.
      * rewrite (Permutation_map fileURL Hperm).
        cbn [map]. apply NoDup_cons. split; [|done].
        rewrite Hurl. intros Hin. apply Hseen.
        apply list_elem_of_In, in_map_iff in Hin as (m' & <- & Hm').
        by apply Hrec, list_elem_of_In.
      * intros m' Hm'. rewrite Hperm in Hm'. cbn [recorded].
        apply elem_of_cons in Hm' as [->|Hm'].
        -- rewrite Hurl. set_solver.
        -- apply elem_of_union_r. by apply Hrec.
Qed.

Lemma step_deduplicated (s : Session) (e : Event) :
  deduplicated s → deduplicated (step s e).
Proof.
  intros Hs. destruct e as [r|loc|k]; simpl.
  - case_match; [done|].
    eapply deduplicated_perm; [| |exact Hs].
    + by rewrite downloadEffect_created, captureEffect_created.
    + by rewrite downloadEffect_recorded, captureEffect_recorded.
  - eapply deduplicated_perm; [| |exact Hs].
    + by rewrite captureEffect_created.
    + by rewrite captureEffect_recorded.
  - by apply advance_deduplicated.
Qed.

Lemma mount_deduplicated (r : string) : deduplicated (mount r).
Proof.
  unfold Metrics.mount.
  eapply deduplicated_perm.
  - by rewrite downloadEffect_created, captureEffect_created.
  - by rewrite downloadEffect_recorded, captureEffect_recorded.
  - split; [constructor|]. intros m Hm. by apply elem_of_nil in Hm.
Qed.


(** *** One export *)

Lemma downloadEffect_exportedOnce (s : Session) :
  exportedOnce s → exportedOnce (downloadEffect s).
Proof.
  unfold exportedOnce, Metrics.downloadEffect.
  destruct (allMetrics s) as [|first log]; [done|].
  destruct (Str.endsWith _ _); [|done].
  destruct (hasDownloaded s) eqn:Hflag; simpl; [by rewrite Hflag|].
  intros Hnone. rewrite length_app, Hnone. done.
Qed.

Lemma advance_exportedOnce (k : nat) (s : Session) :
  exportedOnce s → exportedOnce (advance k s).
Proof.
  intros Hs. unfold Metrics.advance.
  destruct (inflight s !! k) as [c|]; [|done].
  destruct (pending c) as [|url rest].
  - by apply downloadEffect_exportedOnce.
  - case_bool_decide; [done|]. by destruct (measure _ _ _ _ _ _).
Qed.

Lemma step_exportedOnce (s : Session) (e : Event) :
  exportedOnce s → exportedOnce (step s e).
Proof.
  intros Hs.
  assert (Hcap : ∀ s', exportedOnce s' → exportedOnce (captureEffect s')).
  { intros s' Hs'. unfold exportedOnce.
    by destruct (captureEffect_downloads s') as [-> ->]. }
  destruct e as [r|loc|k]; simpl.
  - case_match; [done|]. by apply downloadEffect_exportedOnce, Hcap.
  - by apply Hcap.
  - by apply advance_exportedOnce.
Qed.

(** C6. All along a session the report is handed to the browser at most
    once: the number of files downloaded is 1 when the one-shot flag is
    set and 0 when it is not, whatever the number of visits to the
    terminal route. *)
Theorem export_at_most_once (r : string) (events : list Event) :
  let s := run (mount r) events in
  length (downloads s) ≤ 1
  ∧ length (downloads s) = if hasDownloaded s then 1 else 0.
Proof.
  intros s.
  assert (Hs : exportedOnce s).
  { apply run_invariant; [|intros s' e; apply step_exportedOnce].
    unfold Metrics.mount. apply downloadEffect_exportedOnce.
    unfold exportedOnce. by destruct (captureEffect_downloads
      {| currentRoute := r;
         location := {| country := "Unknown"; continent := "Unknown" |};
         allMetrics := []; recorded := ∅; hasDownloaded := false;
         inflight := []; downloads := []; issued := [] |}) as [-> ->]. }
  split; [|done]. unfold exportedOnce in Hs. rewrite Hs.
  destruct (hasDownloaded s); lia.
Qed.

(** *** The report *)

Lemma csvOf_rows (first : MetricRecord) (metrics : list MetricRecord) :
  csvOf protoText first metrics =
    Str.join "," reportColumns +:+ newline
      +:+ Str.join newline (map (reportRow protoText) metrics).
Proof. reflexivity. Qed.

(** C8, as the code has it. The report handed to the browser is named
    after the provider and holds a header with the columns route,
    storageProvider, country, continent, fileURL, fileName, fileType,
    size, fileSize, fetchTimeMs, throughputKBps, payloadKB,
    headerSizeBytes, memoryDelta, the keys of the first record in their
    order, followed by one line per record of the log, in the order of
    the log, each with the values of these columns. *)
Theorem report_columns (s : Session) (first : MetricRecord)
    (log : list MetricRecord) :
  allMetrics s = first :: log →
  Str.endsWith (currentRoute s) "/survey/end" = true →
  hasDownloaded s = false →
  Obj.keys (properties first) = reportColumns
  ∧ downloads (downloadEffect s) =
      downloads s ++
        [ (providerName +:+ "_complete_metrics.csv",
           Str.join "," reportColumns +:+ newline
             +:+ Str.join newline (map (reportRow protoText) (first :: log))) ].
Proof.
  intros Hlog Hroute Hflag. split; [reflexivity|].
  unfold Metrics.downloadEffect. rewrite Hlog, Hroute, Hflag. simpl.
  by rewrite csvOf_rows.
Qed.

End SessionFacts.

Lemma report_columns_witness :
  ∃ csv,
    downloads
      (Metrics.downloadEffect "local" Samples.nativeText
         (withRoute "/app/survey/end" Samples.afterFirstCase))
      = [("local_complete_metrics.csv", csv)]
    ∧ head (Str.split "010" csv) = Some (Str.join "," reportColumns)
    ∧ length (Str.split "010" csv) = 3.
Proof.
  destruct (report_columns "local" Samples.nativeText
              (withRoute "/app/survey/end" Samples.afterFirstCase)
              _ _ eq_refl eq_refl eq_refl) as [_ Hcsv].
  eexists. split; [exact Hcsv|]. vm_compute. split; reflexivity.
Defined.

(** C8, as stated, fails: the header of the report of a session with two
    records names the columns storageProvider, size, fileSize and
    memoryDelta where the data model has provider, sizeLabel, fileSizeHuman
    and memoryDeltaHuman. *)
Lemma report_header_not_data_model :
  ∃ csv,
    downloads
      (Metrics.run Samples.lossyNet Samples.routes "local" Samples.localUrls
         Samples.nativeText Samples.afterFirstCase
         [Navigate "/app/survey/end"])
      = [("local_complete_metrics.csv", csv)]
    ∧ head (Str.split "010" csv)
        = Some "route,storageProvider,country,continent,fileURL,fileName,fileType,size,fileSize,fetchTimeMs,throughputKBps,payloadKB,headerSizeBytes,memoryDelta"
    ∧ head (Str.split "010" csv) ≠ Some (Str.join "," dataModelColumns).
Proof.
  eexists. split; [vm_compute; reflexivity|]. split; [vm_compute; reflexivity|].
  vm_compute. discriminate.
Qed.

(** Entering the first case again starts a capture that finds both URLs
    seen: no request is issued and the log stays as it is. *)
Lemma reentry_measures_nothing :
  let s :=
    Metrics.run Samples.lossyNet Samples.routes "local" Samples.localUrls
      Samples.nativeText Samples.afterFirstCase
      [ Navigate "/app/survey/case1"; Advance 1; Advance 1; Advance 1 ] in
  allMetrics s = allMetrics Samples.afterFirstCase
  ∧ issued s = issued Samples.afterFirstCase
  ∧ length (allMetrics s) = 2
  ∧ length (issued s) = 16.
Proof. vm_compute. repeat split; reflexivity. Qed.

(** Three visits to the terminal route, one file. *)
Lemma three_visits_one_export :
  let s :=
    Metrics.run Samples.lossyNet Samples.routes "local" Samples.localUrls
      Samples.nativeText Samples.afterFirstCase
      [ Navigate "/app/survey/end"; Navigate "/app/survey/case2";
        Navigate "/app/survey/end"; Advance 0; Advance 0; Advance 0;
        Navigate "/app/thanks"; Navigate "/app/survey/end" ] in
  length (downloads s) = 1 ∧ length (allMetrics s) = 3.
Proof. vm_compute. split; reflexivity. Qed.

(** * Further properties *)

(** ** Case names and their types *)

Lemma rev_app_map_chars (f : ascii → ascii) (s acc : string) :
  String.rev_app (Str.map_chars f s) (Str.map_chars f acc)
    = Str.map_chars f (String.rev_app s acc).
Proof.
  revert acc. induction s as [|c s IH]; intros acc; simpl; [done|].
  by rewrite <- IH.
Qed.

Lemma rev_map_chars (f : ascii → ascii) (s : string) :
  String.rev (Str.map_chars f s) = Str.map_chars f (String.rev s).
Proof. apply (rev_app_map_chars f s ""). Qed.

(** Splitting commutes with a change of characters that leaves the
    separator alone. *)
Lemma split_aux_map_chars (f : ascii → ascii) (sep : ascii) (s cur : string) :
  (∀ c, Ascii.eqb (f c) sep = Ascii.eqb c sep) →
  Str.split_aux sep (Str.map_chars f s) (Str.map_chars f cur)
    = map (Str.map_chars f) (Str.split_aux sep s cur).
Proof.
  intros Hsep. revert cur. induction s as [|c s IH]; intros cur; simpl.
  - by rewrite rev_map_chars.
  - rewrite Hsep. destruct (Ascii.eqb c sep).
    + rewrite rev_map_chars. cbn [map]. f_equal. apply (IH "").
    + apply (IH (String c cur)).
Qed.

Lemma lower_ascii_idempotent (c : ascii) :
  Str.lower_ascii (Str.lower_ascii c) = Str.lower_ascii c.
Proof. by destruct c as [[] [] [] [] [] [] [] []]. Qed.

Lemma lower_ascii_hyphen (c : ascii) :
  Ascii.eqb (Str.lower_ascii c) "-" = Ascii.eqb c "-".
Proof. by destruct c as [[] [] [] [] [] [] [] []]. Qed.

Lemma toLowerCase_idempotent (s : string) :
  Str.toLowerCase (Str.toLowerCase s) = Str.toLowerCase s.
Proof.
  unfold Str.toLowerCase. induction s as [|c s IH]; simpl; [done|].
  by rewrite lower_ascii_idempotent, IH.
Qed.

Lemma casePrefix_toLowerCase (name : string) :
  casePrefix (Str.toLowerCase name) = casePrefix name.
Proof.
  unfold casePrefix, Str.split, Str.toLowerCase.
  pose proof (split_aux_map_chars Str.lower_ascii "-" name ""
                lower_ascii_hyphen) as Hsplit.
  cbn [Str.map_chars] in Hsplit. rewrite Hsplit.
  destruct (Str.split_aux "-" name "") as [|p ps]; simpl; [done|].
  apply toLowerCase_idempotent.
Qed.

(** X1. The case type of a folder name depends on the name up to the case
    of its ASCII letters only: two names that agree once lower-cased are
    validated against the same threshold. *)
Theorem caseType_ignores_letter_case (n1 n2 : string) :
  Str.toLowerCase n1 = Str.toLowerCase n2 →
  caseTypeOf (casePrefix n1) = caseTypeOf (casePrefix n2).
Proof.
  intros H. by rewrite <- (casePrefix_toLowerCase n1),
    <- (casePrefix_toLowerCase n2), H.
Qed.

Lemma caseType_ignores_letter_case_witness :
  caseTypeOf (casePrefix "AUDIO-Case2") = caseTypeOf (casePrefix "audio-case2")
  ∧ caseTypeOf (casePrefix "AUDIO-Case2") = JStr "audio".
Proof.
  split; [|reflexivity].
  exact (caseType_ignores_letter_case "AUDIO-Case2" "audio-case2" eq_refl).
Defined.



Lemma caseTypeOf_default (prefix : string) :
  prefix ∉ ["audio"; "video"; "hybrid"; "text"] →
  Obj.inherited prefix = false →
  caseTypeOf prefix = JStr "image".
Proof.
  intros Hkey Hproto. unfold caseTypeOf, Obj.get, lookup. cbn [Obj.own].
  repeat match goal with
         | |- context [String.eqb ?s prefix] =>
             destruct (String.eqb_spec s prefix) as [<-|?];
               [exfalso; apply Hkey; repeat first
                  [ by apply list_elem_of_here | apply list_elem_of_further ]|]
         end.
  by rewrite Hproto.
Qed.

(** X3. A folder whose name starts with none of the prefixes audio, video,
    hybrid and text (and with no key that objects inherit) is validated as
    an image case: it needs three files, whatever its name says. *)
Theorem unrecognised_prefix_held_to_image_threshold {Item : Type}
    (listFiles : string → string → promise (list Item))
    (folderPath caseName : string) (files : list Item) :
  casePrefix caseName ∉ ["audio"; "video"; "hybrid"; "text"] →
  Obj.inherited (casePrefix caseName) = false →
  listFiles folderPath "" = Resolved files →
  CaseValidator.checkAssets listFiles folderPath
    (caseTypeOf (casePrefix caseName))
    = Resolved (bool_decide (3 ≤ length files)).
Proof.
  intros Hkey Hproto Hlist. rewrite (caseTypeOf_default _ Hkey Hproto).
  unfold CaseValidator.checkAssets. rewrite Hlist. cbn [Async.bind].
  by rewrite (meetsRequirement_threshold (JStr "image")).
Qed.

(** X4. A folder whose name starts with a key that every object inherits,
    such as [constructor], is never valid, however many files it holds: the
    prefix table yields an object where a case type is expected. *)
Theorem inherited_prefix_never_valid {Item : Type}
    (listFiles : string → string → promise (list Item))
    (folderPath caseName : string) (files : list Item) :
  Obj.inherited (casePrefix caseName) = true →
  listFiles folderPath "" = Resolved files →
  CaseValidator.checkAssets listFiles folderPath
    (caseTypeOf (casePrefix caseName)) = Resolved false.
Proof.
  intros Hproto Hlist. rewrite (caseTypeOf_inherited _ Hproto).
  unfold CaseValidator.checkAssets. by rewrite Hlist.
Qed.

Lemma unrecognised_prefix_held_to_image_threshold_witness :
  OneDrive.checkAssetsInOneDrive "dev" Fixtures.crowdedDrive
    "/gallery/cases/misc-case5" (caseTypeOf (casePrefix "misc-case5"))
    = Resolved true.
Proof.
  refine (unrecognised_prefix_held_to_image_threshold
            (OneDrive.listFilesFromOneDrive "dev" Fixtures.crowdedDrive)
            "/gallery/cases/misc-case5" "misc-case5" _ _ eq_refl eq_refl).
  intros Hin. repeat (apply elem_of_cons in Hin as [Hin|Hin]; [by vm_compute in Hin|]).
  by apply elem_of_nil in Hin.
Defined.

Lemma inherited_prefix_never_valid_witness :
  OneDrive.checkAssetsInOneDrive "dev" Fixtures.crowdedDrive
    "/gallery/cases/Constructor-7" (caseTypeOf (casePrefix "Constructor-7"))
    = Resolved false
  ∧ OneDrive.listFilesFromOneDrive "dev" Fixtures.crowdedDrive
      "/gallery/cases/Constructor-7" ""
      = Resolved [ "1.jpg"; "2.jpg"; "3.jpg"; "4.jpg" ].
Proof.
  split; [|reflexivity].
  exact (inherited_prefix_never_valid
           (OneDrive.listFilesFromOneDrive "dev" Fixtures.crowdedDrive)
           "/gallery/cases/Constructor-7" "Constructor-7" _ eq_refl eq_refl).
Defined.

(** ** CaseSelector: the other modes *)

Lemma filterByFlags_sublist (names : list string) (flags : list bool) :
  filterByFlags names flags `sublist_of` names.
Proof.
  revert flags. induction names as [|n names IH]; intros [|[] flags]; simpl;
    try apply sublist_nil_l.
  - by apply sublist_skip.
  - by apply sublist_cons.
Qed.

Lemma elem_of_filterByFlags (names : list string) (flags : list bool) (c : string) :
  c ∈ filterByFlags names flags →
  ∃ i, names !! i = Some c ∧ flags !! i = Some true.
Proof.
  revert flags. induction names as [|n names IH]; intros [|f flags]; simpl;
    try (intros H; by apply elem_of_nil in H).
  destruct f.
  - intros [->|H]%elem_of_cons; [by exists 0|].
    destruct (IH _ H) as (i & ? & ?). by exists (S i).
  - intros H. destruct (IH _ H) as (i & ? & ?). by exists (S i).
Qed.

Section OtherModes.

Variable ROOT_DIR : string.
Variable client : Azure.ContainerClient.
Variable rng : Type.
Variable shuffle : rng → list string → list string * rng.

Local Abbreviation candidatesOf configExists path cases :=
  (if configExists then Resolved cases
   else let/await folders := Azure.listFoldersFromAzure ROOT_DIR client path in
        Azure.definedNames folders).

Lemma fetchCases_plain (g : rng) (configExists : bool)
    (path : string) (cases candidate : list string) (flags : list bool)
    (shuffleMode : string) :
  shuffleMode ≠ "categorized" →
  shuffleMode ≠ "full" →
  candidatesOf configExists path cases = Resolved candidate →
  Azure.validateCasesInAzure ROOT_DIR client candidate = Resolved flags →
  Azure.fetchCasesFromAzure ROOT_DIR client rng shuffle g configExists path
    cases shuffleMode = Resolved (filterByFlags candidate flags).
Proof.
  intros Hc Hf Hcand Hflags.
  unfold Azure.fetchCasesFromAzure. rewrite Hcand. cbn [Async.bind].
  rewrite Hflags. cbn [Async.bind].
  destruct (String.eqb_spec shuffleMode "categorized"); [done|].
  by destruct (String.eqb_spec shuffleMode "full").
Qed.

Lemma fetchCases_full (g : rng) (configExists : bool)
    (path : string) (cases candidate : list string) (flags : list bool) :
  candidatesOf configExists path cases = Resolved candidate →
  Azure.validateCasesInAzure ROOT_DIR client candidate = Resolved flags →
  Azure.fetchCasesFromAzure ROOT_DIR client rng shuffle g configExists path
    cases "full" = Resolved (shuffle g (filterByFlags candidate flags)).1.
Proof.
  intros Hcand Hflags.
  unfold Azure.fetchCasesFromAzure. rewrite Hcand. cbn [Async.bind].
  by rewrite Hflags.
Qed.

Lemma fetchCases_buckets (g : rng) (configExists : bool)
    (path : string) (cases candidate : list string) (flags : list bool) :
  (∀ g l, (shuffle g l).1 ≡ₚ l) →
  candidatesOf configExists path cases = Resolved candidate →
  Azure.validateCasesInAzure ROOT_DIR client candidate = Resolved flags →
  ∃ out,
    Azure.fetchCasesFromAzure ROOT_DIR client rng shuffle g configExists path
      cases "categorized" = Resolved out
    ∧ out ≡ₚ filterByFlags candidate flags.
Proof.
  intros Hperm Hcand Hflags.
  destruct (concatShuffled_buckets rng shuffle g
              (filterByFlags candidate flags) Hperm)
    as (image & hybrid & video & audio & text & Heq & Hi & Hh & Hv & Ha & Ht).
  exists (image ++ hybrid ++ video ++ audio ++ text). split.
  - unfold Azure.fetchCasesFromAzure. rewrite Hcand. cbn [Async.bind].
    rewrite Hflags. cbn [Async.bind].
    change (String.eqb "categorized" "categorized") with true. cbv iota.
    unfold Azure.emptyBuckets.
    rewrite (fillBuckets_buckets (filterByFlags candidate flags)
               (valid_prefix_not_inherited _ _ _ _ Hflags)).
    cbn [Async.bind app]. by rewrite Heq.
  - rewrite Hi, Hh, Hv, Ha, Ht. apply buckets_partition.
Qed.

(** X5. With a shuffle mode that is neither [categorized] nor [full]
    ([none], or any other word), [fetchCases] returns the names whose check
    passed, in the order of the candidates. *)
Theorem fetchCases_unshuffled_keeps_order (g : rng) (configExists : bool)
    (path : string) (cases candidate : list string) (flags : list bool)
    (shuffleMode : string) :
  shuffleMode ≠ "categorized" →
  shuffleMode ≠ "full" →
  candidatesOf configExists path cases = Resolved candidate →
  Azure.validateCasesInAzure ROOT_DIR client candidate = Resolved flags →
  Azure.fetchCasesFromAzure ROOT_DIR client rng shuffle g configExists path
    cases shuffleMode = Resolved (filterByFlags candidate flags)
  ∧ filterByFlags candidate flags `sublist_of` candidate.
Proof.
  intros Hc Hf Hcand Hflags. split; [|apply filterByFlags_sublist].
  by apply fetchCases_plain.
Qed.

(** X6. In [full] mode, with a shuffle that permutes, [fetchCases] returns
    a permutation of the names whose check passed. *)
Theorem fetchCases_full_permutes (g : rng) (configExists : bool)
    (path : string) (cases candidate : list string) (flags : list bool) :
  (∀ g l, (shuffle g l).1 ≡ₚ l) →
  candidatesOf configExists path cases = Resolved candidate →
  Azure.validateCasesInAzure ROOT_DIR client candidate = Resolved flags →
  ∃ out,
    Azure.fetchCasesFromAzure ROOT_DIR client rng shuffle g configExists path
      cases "full" = Resolved out
    ∧ out ≡ₚ filterByFlags candidate flags.
Proof.
  intros Hperm Hcand Hflags.
  exists (shuffle g (filterByFlags candidate flags)).1. split; [|apply Hperm].
  by apply fetchCases_full.
Qed.

(** X7. Whatever the shuffle mode, every name [fetchCases] returns is a
    candidate whose folder was listed and holds enough files for its type:
    no invalid case is ever selected. *)
Theorem fetchCases_returns_valid_cases_only (g : rng) (configExists : bool)
    (path : string) (cases candidate out : list string) (shuffleMode : string) :
  (∀ g l, (shuffle g l).1 ≡ₚ l) →
  candidatesOf configExists path cases = Resolved candidate →
  Azure.fetchCasesFromAzure ROOT_DIR client rng shuffle g configExists path
    cases shuffleMode = Resolved out →
  ∀ c, c ∈ out →
    c ∈ candidate
    ∧ ∃ files,
        Azure.listFilesFromAzure ROOT_DIR client ("gallery/cases/" +:+ c) ""
          = Resolved files
        ∧ CaseValidator.meetsRequirement (caseTypeOf (casePrefix c))
            (length files) = true.
Proof.
  intros Hperm Hcand Hout c Hc.
  destruct (Azure.validateCasesInAzure ROOT_DIR client candidate)
    as [flags| |] eqn:Hflags;
    try (unfold Azure.fetchCasesFromAzure in Hout;
         rewrite Hcand in Hout; cbn [Async.bind] in Hout;
         by rewrite Hflags in Hout).
  assert (Hvalid : c ∈ filterByFlags candidate flags).
  { destruct (String.eqb_spec shuffleMode "categorized") as [->|Hnc].
    - destruct (fetchCases_buckets g configExists path cases candidate flags
                  Hperm Hcand Hflags) as (out' & Heq & Hall).
      rewrite Heq in Hout. injection Hout as <-. by rewrite <- Hall.
    - destruct (String.eqb_spec shuffleMode "full") as [->|Hnf].
      + rewrite (fetchCases_full g configExists path cases candidate flags
                   Hcand Hflags) in Hout.
        injection Hout as <-. by rewrite <- (Hperm g _).
      + rewrite (fetchCases_plain g configExists path cases candidate flags
                   shuffleMode Hnc Hnf Hcand Hflags) in Hout.
        by injection Hout as <-. }
  destruct (elem_of_filterByFlags _ _ _ Hvalid) as (i & Hi & Hflag).
  split; [by eapply list_elem_of_lookup_2|].
  pose proof Hflags as Hall. unfold Azure.validateCasesInAzure in Hall.
  rewrite validateCases_resolved in Hall.
  destruct (Forall2_lookup_l _ _ _ _ _ Hall Hi) as (flag & Hf & files & Hlist & ->).
  exists files. split; [done|]. rewrite Hflag in Hf. by injection Hf as <-.
Qed.

End OtherModes.

Lemma fetchCases_unshuffled_keeps_order_witness :
  Azure.fetchCasesFromAzure "dev" Samples.container unit Samples.reversing tt
    true "" [ "audio-case2"; "text-case4"; "image-case1" ] "none"
    = Resolved [ "audio-case2"; "image-case1" ].
Proof.
  refine (proj1 (fetchCases_unshuffled_keeps_order "dev" Samples.container unit
                   Samples.reversing tt true ""
                   [ "audio-case2"; "text-case4"; "image-case1" ]
                   [ "audio-case2"; "text-case4"; "image-case1" ]
                   [ true; false; true ] "none" _ _ eq_refl eq_refl));
    discriminate.
Defined.

Lemma fetchCases_full_permutes_witness :
  ∃ out,
    Azure.fetchCasesFromAzure "dev" Samples.container unit Samples.reversing tt
      true "" [ "audio-case2"; "text-case4"; "image-case1" ] "full"
      = Resolved out
    ∧ out ≡ₚ [ "audio-case2"; "image-case1" ].
Proof.
  exact (fetchCases_full_permutes "dev" Samples.container unit
           Samples.reversing tt true ""
           [ "audio-case2"; "text-case4"; "image-case1" ]
           [ "audio-case2"; "text-case4"; "image-case1" ]
           [ true; false; true ]
           (fun g l => Permutation_sym (Permutation_rev l)) eq_refl eq_refl).
Defined.

Lemma fetchCases_returns_valid_cases_only_witness :
  "Video-case3" ∈ [ "audio-case2"; "image-case1"; "text-case4"; "Video-case3";
                    "misc-case5" ]
  ∧ ∃ files,
      Azure.listFilesFromAzure "dev" Samples.container
        "gallery/cases/Video-case3" "" = Resolved files
      ∧ CaseValidator.meetsRequirement (caseTypeOf (casePrefix "Video-case3"))
          (length files) = true.
Proof.
  refine (fetchCases_returns_valid_cases_only "dev" Samples.container unit
            Samples.reversing tt false "gallery/cases/" []
            [ "audio-case2"; "image-case1"; "text-case4"; "Video-case3";
              "misc-case5" ]
            [ "misc-case5"; "image-case1"; "Video-case3"; "audio-case2" ]
            "categorized"
            (fun g l => Permutation_sym (Permutation_rev l)) eq_refl eq_refl
            "Video-case3" _).
  apply list_elem_of_In. simpl. tauto.
Defined.

(** ** Dropbox listings *)

(** X8. A Dropbox listing reads every page: when the folder is served in
    [n] pages after the first, a run allowed [n] continuation calls or more
    returns the entries of all the pages in the order they were served, and
    the folder listing returns the names of all the entries tagged
    [folder] among them. *)
Theorem dropbox_listing_reads_every_page (ROOT_DIR : string)
    (dbx : Dropbox.Client) (path : string) (r : Dropbox.ListFolderResult)
    (all : list Dropbox.Entry) (n fuel : nat) :
  Dropbox.filesListFolder dbx (ROOT_DIR +:+ path) = Resolved r →
  Dropbox.served dbx r all n →
  n ≤ fuel →
  Dropbox.listAllEntries ROOT_DIR dbx fuel path = Resolved all
  ∧ Dropbox.listFolders ROOT_DIR dbx fuel path =
      Resolved
        (map Dropbox.name
           (List.filter (fun entry => String.eqb (Dropbox.tag entry) "folder")
              all)).
Proof.
  intros Hfirst Hserved Hfuel.
  assert (Hall : Dropbox.listAllEntries ROOT_DIR dbx fuel path = Resolved all).
  { unfold Dropbox.listAllEntries. rewrite Hfirst. cbn [Async.bind].
    apply (listAllEntries_loop_complete dbx r all n Hserved fuel [] Hfuel). }
  split; [done|]. unfold Dropbox.listFolders. by rewrite Hall.
Qed.

Lemma dropbox_listing_reads_every_page_witness :
  Dropbox.listFolders "/dev" Fixtures.pagedDropbox 2 "/gallery/cases"
    = Resolved [ "image-case1"; "Audio-case2"; "text-case4" ].
Proof.
  refine (proj2 (dropbox_listing_reads_every_page "/dev" Fixtures.pagedDropbox
            "/gallery/cases" Fixtures.casesPage1
            (Dropbox.entries Fixtures.casesPage1
               ++ Dropbox.entries Fixtures.casesPage2
               ++ Dropbox.entries Fixtures.casesPage3)
            2 2 eq_refl _ (le_n 2))).
  apply (Dropbox.served_more Fixtures.pagedDropbox Fixtures.casesPage1
           Fixtures.casesPage2); [reflexivity|reflexivity|].
  apply (Dropbox.served_more Fixtures.pagedDropbox Fixtures.casesPage2
           Fixtures.casesPage3); [reflexivity|reflexivity|].
  by apply (Dropbox.served_last Fixtures.pagedDropbox Fixtures.casesPage3).
Defined.

Lemma listAllEntries_loop_broken (dbx : Dropbox.Client)
    (r : Dropbox.ListFolderResult) (e : error) (n : nat) :
  DropboxSelector.broken dbx r e n →
  ∀ fuel acc, n < fuel →
    Dropbox.listAllEntries_loop dbx fuel r acc = Rejected e.
Proof.
  induction 1 as [r e Hmore Hnext|r r' e n Hmore Hnext _ IH];
    intros fuel acc Hfuel; (destruct fuel as [|fuel]; [lia|]);
    simpl; rewrite Hmore, Hnext; simpl; [done|].
  apply IH. lia.
Qed.

(** X9. When a continuation call of a Dropbox listing fails, the listing
    fails with that error: the entries of the pages already read are not
    returned, by [listAllEntries] or by the listings built on it. *)
Theorem dropbox_listing_fails_as_a_whole (ROOT_DIR : string)
    (dbx : Dropbox.Client) (path substring : string)
    (r : Dropbox.ListFolderResult) (e : error) (n fuel : nat) :
  Dropbox.filesListFolder dbx (ROOT_DIR +:+ path) = Resolved r →
  DropboxSelector.broken dbx r e n →
  n < fuel →
  Dropbox.listAllEntries ROOT_DIR dbx fuel path = Rejected e
  ∧ Dropbox.listFolders ROOT_DIR dbx fuel path = Rejected e
  ∧ Dropbox.listFiles ROOT_DIR dbx fuel path substring = Rejected e.
Proof.
  intros Hfirst Hbroken Hfuel.
  assert (Hall : Dropbox.listAllEntries ROOT_DIR dbx fuel path = Rejected e).
  { unfold Dropbox.listAllEntries. rewrite Hfirst. cbn [Async.bind].
    by apply (listAllEntries_loop_broken dbx r e n). }
  unfold Dropbox.listFolders, Dropbox.listFiles. by rewrite Hall.
Qed.

Lemma dropbox_listing_fails_as_a_whole_witness :
  Dropbox.listFolders "/dev" Fixtures.flakyDropbox 5 "/gallery/cases"
    = Rejected "too_many_requests".
Proof.
  refine (proj1 (proj2 (dropbox_listing_fails_as_a_whole "/dev"
            Fixtures.flakyDropbox "/gallery/cases" "" Fixtures.casesPage1
            "too_many_requests" 1 5 eq_refl _ _))); [|lia].
  apply (DropboxSelector.broken_later Fixtures.flakyDropbox Fixtures.casesPage1
           Fixtures.casesPage2); [reflexivity|reflexivity|].
  by apply (DropboxSelector.broken_here Fixtures.flakyDropbox Fixtures.casesPage2).
Defined.

Lemma index_empty (s : string) : String.index 0 "" s = Some 0.
Proof. by destruct s. Qed.

Lemma includes_empty (s : string) : Str.includes s "" = true.
Proof. unfold Str.includes. by rewrite index_empty. Qed.

(** X10. [listFiles] with the empty substring returns every entry tagged
    [file], in listing order, with its lower-cased path and its name; with a
    substring it returns a sub-sequence of that, whose names all contain the
    substring. Entries with another tag are never returned. *)
Theorem dropbox_listFiles_filters (ROOT_DIR : string) (dbx : Dropbox.Client)
    (fuel : nat) (path substring : string) (all : list Dropbox.Entry) :
  Dropbox.listAllEntries ROOT_DIR dbx fuel path = Resolved all →
  let ref file :=
    {| Dropbox.path := Dropbox.path_lower file;
       Dropbox.ref_name := Dropbox.name file |} in
  let files :=
    List.filter (fun entry => String.eqb (Dropbox.tag entry) "file") all in
  Dropbox.listFiles ROOT_DIR dbx fuel path "" = Resolved (map ref files)
  ∧ ∃ refs,
      Dropbox.listFiles ROOT_DIR dbx fuel path substring = Resolved refs
      ∧ refs `sublist_of` map ref files
      ∧ Forall (fun r => Str.includes (Dropbox.ref_name r) substring = true) refs.
Proof.
  intros Hall ref files. unfold Dropbox.listFiles. rewrite Hall.
  cbn [Async.bind]. split.
  - do 2 f_equal. apply filter_ext. intros entry.
    by rewrite includes_empty, andb_true_r.
  - eexists. split; [reflexivity|]. subst files. clear Hall. split.
    + induction all as [|entry all IH]; [done|]. cbn [List.filter].
      destruct (String.eqb (Dropbox.tag entry) "file"); cbn [andb]; [|done].
      destruct (Str.includes (Dropbox.name entry) substring); cbn [map].
      * by apply sublist_skip.
      * by apply sublist_cons.
    + induction all as [|entry all IH]; [constructor|]. cbn [List.filter].
      destruct (String.eqb (Dropbox.tag entry) "file"); cbn [andb]; [|done].
      destruct (Str.includes (Dropbox.name entry) substring) eqn:Hinc; [|done].
      by constructor.
Qed.

Lemma dropbox_listFiles_filters_witness :
  Dropbox.listFiles "/dev" Fixtures.pagedDropbox 2 "/gallery/cases" ""
    = Resolved [ {| Dropbox.path := "/dev/gallery/cases/notes.txt";
                    Dropbox.ref_name := "notes.txt" |} ].
Proof.
  exact (proj1 (dropbox_listFiles_filters "/dev" Fixtures.pagedDropbox 2
                  "/gallery/cases" "" _ eq_refl)).
Defined.

(** ** Google Drive: uploads *)

Section GoogleDriveFacts.

Variable ROOT : string.
Variable gapi : GoogleDrive.Gapi.

Local Abbreviation upload :=
  (GoogleDrive.uploadFileToGoogleDrive gapi).
Local Abbreviation uploads := (GoogleDrive.uploads gapi).

(** What one upload does to the state: nothing but a failed or pending
    initialisation, or one request, sent with the method and to the URL the
    state before it decides. *)
Lemma upload_step (fileName content mimeType : string) (st : GoogleDrive.State) :
  let st' := (upload fileName content mimeType st).2 in
  (GoogleDrive.requests st' = GoogleDrive.requests st
   ∧ GoogleDrive.cachedFileId st' = GoogleDrive.cachedFileId st
   ∧ GoogleDrive.isCreatingFile st' = GoogleDrive.isCreatingFile st)
  ∨ (GoogleDrive.requests st' =
       GoogleDrive.requests st ++
         [ (if GoogleDrive.isCreatingFile st then "POST" else "PATCH",
            if GoogleDrive.truthy (GoogleDrive.cachedFileId st)
            then GoogleDrive.updateUrl (default "" (GoogleDrive.cachedFileId st))
            else GoogleDrive.createUrl) ]
     ∧ GoogleDrive.isCreatingFile st' =
         (if GoogleDrive.truthy (GoogleDrive.cachedFileId st)
          then GoogleDrive.isCreatingFile st else true)
     ∧ (GoogleDrive.truthy (GoogleDrive.cachedFileId st) = true →
        GoogleDrive.cachedFileId st' = GoogleDrive.cachedFileId st)).
Proof.
  unfold GoogleDrive.uploadFileToGoogleDrive, GoogleDrive.bindM,
    GoogleDrive.initializeGoogleDrive.
  destruct st as [ini cached created creating n qs rs].
  cbn [GoogleDrive.gapiInitialized GoogleDrive.inits].
  destruct ini; [|destruct (GoogleDrive.signIn gapi n); [|by left|by left]];
    unfold GoogleDrive.markCreating, GoogleDrive.send, GoogleDrive.remember,
      GoogleDrive.throw, GoogleDrive.ret; cbn;
    destruct (GoogleDrive.truthy cached) eqn:Hc; cbn; rewrite ?Hc; cbn;
    destruct (GoogleDrive.fetch gapi _ _ _) as [res| |]; cbn;
    try (destruct (GoogleDrive.ok res); cbn);
    try (destruct (GoogleDrive.json res); cbn; rewrite ?Hc);
    right; (split; [done|]; split; done).
Qed.

Lemma upload_uploadLog (fileName content mimeType : string)
    (st : GoogleDrive.State) :
  uploadLog st → uploadLog (upload fileName content mimeType st).2.
Proof.
  intros Hst.
  destruct (upload_step fileName content mimeType st)
    as [(Hr & Hc & Hi)|(Hr & Hi & _)].
  - unfold uploadLog. by rewrite Hr, Hc, Hi.
  - right.
    destruct Hst as [(Hcr & Hnone & Hfalsy)|(Hcr & rest & Hrest & Hposts)].
    + split; [by rewrite Hi, Hfalsy|].
      exists []. rewrite Hr, Hnone, Hcr, Hfalsy. by split.
    + split; [rewrite Hi, Hcr; by destruct (GoogleDrive.truthy _)|].
      exists (rest ++ [("POST",
                 if GoogleDrive.truthy (GoogleDrive.cachedFileId st)
                 then GoogleDrive.updateUrl (default "" (GoogleDrive.cachedFileId st))
                 else GoogleDrive.createUrl)]).
      rewrite Hr, Hrest, Hcr. split; [done|].
      apply Forall_app. split; [done|]. by constructor.
Qed.

(** X12. From the start of the module, for uploads made one after the
    other and whatever their outcomes, the first upload request sent is a
    PATCH to the URL that creates a file, and every request after it is a
    POST. *)
Theorem first_upload_patches_then_posts
    (calls : list (string * string * string)) :
  let st := uploads calls GoogleDrive.initial in
  GoogleDrive.requests st = []
  ∨ ∃ rest,
      GoogleDrive.requests st = ("PATCH", GoogleDrive.createUrl) :: rest
      ∧ Forall (fun r => r.1 = "POST") rest.
Proof.
  intros st.
  assert (Hlog : uploadLog st).
  { subst st. unfold GoogleDrive.uploads.
    assert (H0 : uploadLog GoogleDrive.initial) by (by left).
    revert H0. generalize GoogleDrive.initial.
    induction calls as [|call calls IH]; intros st0 H0; simpl; [done|].
    apply IH. by apply upload_uploadLog. }
  destruct Hlog as [(_ & Hnone & _)|(_ & Hrest)]; [by left|by right].
Qed.

(** X13. Once a non-empty file id is remembered it is never replaced: every
    later upload is sent to the URL of that file, and the ids that later
    responses carry are ignored. *)
Theorem remembered_file_id_is_kept (fileId : string)
    (calls : list (string * string * string)) (st : GoogleDrive.State) :
  GoogleDrive.cachedFileId st = Some fileId →
  fileId ≠ "" →
  let st' := uploads calls st in
  GoogleDrive.cachedFileId st' = Some fileId
  ∧ ∃ sent,
      GoogleDrive.requests st' = GoogleDrive.requests st ++ sent
      ∧ Forall (fun r => r.2 = GoogleDrive.updateUrl fileId) sent.
Proof.
  intros Hid Hne. revert st Hid.
  induction calls as [|[[fileName content] mimeType] calls IH]; intros st Hid.
  - split; [done|]. exists []. by rewrite app_nil_r.
  - cbn zeta. unfold GoogleDrive.uploads. cbn [fold_left fst snd].
    fold (uploads calls (upload fileName content mimeType st).2).
    assert (Htruthy : GoogleDrive.truthy (GoogleDrive.cachedFileId st) = true).
    { rewrite Hid. simpl. by destruct (String.eqb_spec fileId ""). }
    destruct (upload_step fileName content mimeType st)
      as [(Hr & Hc & _)|(Hr & _ & Hc)].
    + destruct (IH _ (eq_trans Hc Hid)) as (Hkept & sent & Hsent & Hurls).
      split; [done|]. exists sent. by rewrite Hsent, Hr.
    + specialize (Hc Htruthy).
      destruct (IH _ (eq_trans Hc Hid)) as (Hkept & sent & Hsent & Hurls).
      split; [done|]. eexists (_ :: sent). split.
      * rewrite Hsent, Hr, <- (assoc_L (++)). reflexivity.
      * constructor; [|done]. cbn [snd]. by rewrite Htruthy, Hid.
Qed.

End GoogleDriveFacts.

Lemma remembered_file_id_is_kept_witness :
  let st' :=
    GoogleDrive.uploads Fixtures.steadyGapi
      [ ("responses.json", "{1}", "application/json");
        ("responses.json", "{2}", "application/json") ]
      Fixtures.afterFirstUpload in
  GoogleDrive.cachedFileId st' = Some "f1"
  ∧ GoogleDrive.requests st' =
      [ ("PATCH", GoogleDrive.createUrl);
        ("POST", GoogleDrive.updateUrl "f1");
        ("POST", GoogleDrive.updateUrl "f1") ].
Proof.
  destruct (remembered_file_id_is_kept Fixtures.steadyGapi "f1"
              [ ("responses.json", "{1}", "application/json");
                ("responses.json", "{2}", "application/json") ]
              Fixtures.afterFirstUpload eq_refl) as [Hid _]; [discriminate|].
  split; [exact Hid|]. vm_compute. reflexivity.
Defined.

(** ** Google Drive: listings *)

Section GoogleDriveQueries.

Variable ROOT : string.
Variable gapi : GoogleDrive.Gapi.

Lemma initialize_queries (st : GoogleDrive.State) :
  GoogleDrive.queries (GoogleDrive.initializeGoogleDrive gapi st).2
    = GoogleDrive.queries st.
Proof.
  unfold GoogleDrive.initializeGoogleDrive.
  destruct (GoogleDrive.gapiInitialized st); [done|].
  by destruct (GoogleDrive.signIn gapi _).
Qed.

Lemma resolveParts_queries (parts : list string) (folderId : string)
    (st st' : GoogleDrive.State) (r : promise string) :
  GoogleDrive.resolveParts gapi parts folderId st = (r, st') →
  ∃ k, k ≤ length parts
       ∧ GoogleDrive.queries st' =
           GoogleDrive.queries st
             ++ replicate k (GoogleDrive.folderQuery, "files(id)")
       ∧ (∀ v, r = Resolved v → k = length parts).
Proof.
  revert folderId st. induction parts as [|part parts IH]; intros folderId st.
  - intros [= <- <-]. exists 0. split; [done|]. by rewrite app_nil_r.
  - cbn [GoogleDrive.resolveParts]. unfold GoogleDrive.bindM at 1.
    unfold GoogleDrive.listCall at 1.
    destruct (GoogleDrive.filesList gapi _ _ _) as [[|first files]| |];
      try (intros [= <- <-]; exists 1; cbn [GoogleDrive.queries length replicate];
           split; [lia|]; split; [done|]; intros v; discriminate).
    intros Hrest. destruct (IH _ _ Hrest) as (k & Hk & Hq & Hres).
    exists (S k). cbn [length]. split; [lia|]. split.
    + rewrite Hq. cbn [GoogleDrive.queries replicate].
      by rewrite <- (assoc_L (++)).
    + intros v Hv. by rewrite (Hres v Hv).
Qed.

(** X14. The queries a listing sends to Drive hold neither the folder
    reached, nor the name of the path segment looked for, nor the substring
    asked for: a listing that returns has sent the same folder query once
    per segment of the path and then the same file query, whatever the
    path and the substring. *)
Theorem drive_queries_are_constant (folderPath substring : string)
    (st st' : GoogleDrive.State) (names : list string) :
  GoogleDrive.listFilesFromGoogleDrive ROOT gapi folderPath substring st
    = (Resolved names, st') →
  GoogleDrive.queries st' =
    GoogleDrive.queries st
      ++ replicate (length (Azure.segments folderPath))
           (GoogleDrive.folderQuery, "files(id)")
      ++ [ (GoogleDrive.filesQuery, "files(id,name)") ].
Proof.
  unfold GoogleDrive.listFilesFromGoogleDrive, GoogleDrive.getTargetFolderId.
  unfold GoogleDrive.bindM at 1 2.
  pose proof (initialize_queries st) as Hinit.
  destruct (GoogleDrive.initializeGoogleDrive gapi st) as [[[]| |] st1];
    [|discriminate|discriminate].
  destruct (GoogleDrive.resolveParts gapi _ _ st1) as [[folderId| |] st2] eqn:Hparts;
    [|discriminate|discriminate].
  destruct (resolveParts_queries _ _ _ _ _ Hparts) as (k & _ & Hq & Hres).
  rewrite (Hres folderId eq_refl) in Hq. cbn [snd] in Hinit.
  unfold GoogleDrive.listFilesInFolder, GoogleDrive.bindM.
  pose proof (initialize_queries st2) as Hinit2.
  destruct (GoogleDrive.initializeGoogleDrive gapi st2) as [[[]| |] st3];
    [|discriminate|discriminate].
  cbn [snd] in Hinit2. unfold GoogleDrive.listCall.
  destruct (GoogleDrive.filesList gapi _ _ _); [|discriminate|discriminate].
  intros [= _ <-]. cbn [GoogleDrive.queries].
  by rewrite Hinit2, Hq, Hinit, <- (assoc_L (++)).
Qed.

End GoogleDriveQueries.

Lemma drive_queries_are_constant_witness :
  GoogleDrive.queries
    (GoogleDrive.listFilesFromGoogleDrive "root" Fixtures.steadyGapi
       "/gallery/cases/image-case1" "jpg" GoogleDrive.initial).2
  = [ (GoogleDrive.folderQuery, "files(id)");
      (GoogleDrive.folderQuery, "files(id)");
      (GoogleDrive.folderQuery, "files(id)");
      (GoogleDrive.filesQuery, "files(id,name)") ].
Proof.
  apply (drive_queries_are_constant "root" Fixtures.steadyGapi
           "/gallery/cases/image-case1" "jpg" GoogleDrive.initial
           (GoogleDrive.listFilesFromGoogleDrive "root" Fixtures.steadyGapi
              "/gallery/cases/image-case1" "jpg" GoogleDrive.initial).2
           [ "a.jpg"; "b.jpg" ]).
  reflexivity.
Defined.

(** ** Dropbox: the selector *)

Section DropboxSelection.

Variable ROOT_DIR : string.
Variable dbx : Dropbox.Client.
Variable rng : Type.
Variable shuffle : rng → list string → list string * rng.

(** X11. The Dropbox selector knows one shuffle mode, [full]: with any
    other word, [categorized] included, and the candidates read from a
    folder served in several pages, it returns the folder names of all
    the pages whose check passed, in the order of the listing. *)
Theorem dropbox_fetchCases_lists_all_pages (fuel n : nat) (g : rng)
    (path : string) (cases : list string) (shuffleMode : string)
    (r : Dropbox.ListFolderResult) (all : list Dropbox.Entry)
    (flags : list bool) :
  shuffleMode ≠ "full" →
  Dropbox.filesListFolder dbx (ROOT_DIR +:+ path) = Resolved r →
  Dropbox.served dbx r all n →
  n ≤ fuel →
  let folders :=
    map Dropbox.name
      (List.filter (fun entry => String.eqb (Dropbox.tag entry) "folder") all) in
  Dropbox.validateCases ROOT_DIR dbx fuel folders = Resolved flags →
  DropboxSelector.fetchCases ROOT_DIR dbx rng shuffle fuel g false path cases
    shuffleMode = Resolved (filterByFlags folders flags)
  ∧ filterByFlags folders flags `sublist_of` folders.
Proof.
  intros Hmode Hfirst Hserved Hfuel folders Hflags.
  split; [|apply filterByFlags_sublist].
  unfold DropboxSelector.fetchCases, Dropbox.listFolders, Dropbox.listAllEntries.
  rewrite Hfirst. cbn [Async.bind].
  pose proof (listAllEntries_loop_complete dbx r all n Hserved fuel [] Hfuel)
    as Hloop.
  cbn [app] in Hloop. cbn [app]. rewrite Hloop. cbn [Async.bind].
  fold folders. rewrite Hflags. cbn [Async.bind].
  by destruct (String.eqb_spec shuffleMode "full").
Qed.

End DropboxSelection.

Lemma dropbox_fetchCases_lists_all_pages_witness :
  DropboxSelector.fetchCases "/dev" Fixtures.pagedDropbox unit Samples.reversing
    2 tt false "/gallery/cases" [] "categorized"
    = Resolved [ "image-case1"; "Audio-case2" ].
Proof.
  refine (proj1 (dropbox_fetchCases_lists_all_pages "/dev" Fixtures.pagedDropbox
            unit Samples.reversing 2 2 tt "/gallery/cases" [] "categorized"
            Fixtures.casesPage1
            (Dropbox.entries Fixtures.casesPage1
               ++ Dropbox.entries Fixtures.casesPage2
               ++ Dropbox.entries Fixtures.casesPage3)
            [ true; true; false ] _ eq_refl _ (le_n 2) eq_refl));
    [discriminate|].
  apply (Dropbox.served_more Fixtures.pagedDropbox Fixtures.casesPage1
           Fixtures.casesPage2); [reflexivity|reflexivity|].
  apply (Dropbox.served_more Fixtures.pagedDropbox Fixtures.casesPage2
           Fixtures.casesPage3); [reflexivity|reflexivity|].
  by apply (Dropbox.served_last Fixtures.pagedDropbox Fixtures.casesPage3).
Defined.

(** ** The geolocation lookup *)


(** ** The session: accounting, growth, provenance *)

Section SessionMore.

Variable net : Network.
Variable surveyRoutes : list string.
Variable providerName : string.
Variable buildUrls : string → promise (list string).
Variable protoText : string → string.

Local Abbreviation captureEffect := (Metrics.captureEffect surveyRoutes buildUrls).
Local Abbreviation downloadEffect := (Metrics.downloadEffect providerName protoText).
Local Abbreviation advance := (Metrics.advance net providerName protoText).
Local Abbreviation step := (Metrics.step net surveyRoutes providerName buildUrls protoText).
Local Abbreviation mount := (Metrics.mount surveyRoutes providerName buildUrls protoText).
Local Abbreviation run := (Metrics.run net surveyRoutes providerName buildUrls protoText).

(** A property every event keeps holds at the end of any run. *)
Lemma run_preserves (P : Session → Prop) :
  (∀ s e, P s → P (step s e)) →
  ∀ events s, P s → P (run s events).
Proof.
  intros Hstep events. unfold Metrics.run.
  induction events as [|e events IH]; intros s Hs; simpl; [done|].
  apply IH. by apply Hstep.
Qed.

Lemma captureEffect_fields (s : Session) :
  allMetrics (captureEffect s) = allMetrics s
  ∧ issued (captureEffect s) = issued s
  ∧ currentRoute (captureEffect s) = currentRoute s.
Proof. unfold Metrics.captureEffect. by repeat case_match. Qed.

Lemma downloadEffect_fields (s : Session) :
  allMetrics (downloadEffect s) = allMetrics s
  ∧ issued (downloadEffect s) = issued s
  ∧ inflight (downloadEffect s) = inflight s
  ∧ currentRoute (downloadEffect s) = currentRoute s.
Proof.
  unfold Metrics.downloadEffect.
  destruct (allMetrics s) as [|first log] eqn:Hlog; [by rewrite Hlog|].
  destruct (_ && _); simpl; by rewrite ?Hlog.
Qed.

(** One turn of a capture either creates no record and issues no request,
    or measures one URL that was not seen: one record more, eight requests
    more. *)
Lemma advance_cases (k : nat) (s : Session) :
  (created (advance k s) ≡ₚ created s
   ∧ issued (advance k s) = issued s)
  ∨ (∃ c url rest,
       inflight s !! k = Some c
       ∧ pending c = url :: rest
       ∧ (url ∉ recorded s)
       ∧ created (advance k s)
           ≡ₚ ((measure net url (routeKey c) providerName (captured c)
                  (issued s)).1 :: created s)
       ∧ issued (advance k s) = issued s ++ replicate 8 url).
Proof.
  unfold Metrics.advance.
  destruct (inflight s !! k) as [c|] eqn:Hk; [|by left].
  pose proof (lookup_lt_Some _ _ _ Hk) as Hlt.
  destruct (pending c) as [|url rest] eqn:Hpending.
  - left. destruct (downloadEffect_fields
      {| currentRoute := currentRoute s; location := location s;
         allMetrics := allMetrics s ++ newMetrics c; recorded := recorded s;
         hasDownloaded := hasDownloaded s; inflight := delete k (inflight s);
         downloads := downloads s; issued := issued s |}) as (_ & Hi & _).
    split; [|exact Hi].
    rewrite downloadEffect_created, (created_at s k c Hk).
    unfold created. cbn [allMetrics inflight].
    rewrite delete_take_drop, flat_map_app, <- !(assoc_L (++)).
    apply Permutation_app_head. rewrite !(assoc_L (++)).
    apply Permutation_app_tail, Permutation_app_comm.
  - case_bool_decide as Hseen.
    + left. split; [|done].
      rewrite (created_at s k c Hk). unfold created. cbn [allMetrics inflight].
      by rewrite insert_take_drop, flat_map_app by done.
    + right. exists c, url, rest. split; [done|]. split; [done|]. split; [done|].
      pose proof (measure_record net url (routeKey c) providerName (captured c)
                    (issued s)) as (_ & _ & _ & Hissued).
      destruct (measure net url (routeKey c) providerName (captured c) (issued s))
        as [m issued'] eqn:Hm.
      cbn [fst snd] in *. split; [|done].
      rewrite (created_at s k c Hk). unfold created. cbn [allMetrics inflight].
      rewrite insert_take_drop, flat_map_app by done.
      cbn [flat_map newMetrics]. rewrite <- !(assoc_L (++)). cbn [app].
      by rewrite <- !Permutation_middle.
Qed.


Lemma advance_log_grows (k : nat) (s : Session) :
  allMetrics s `prefix_of` allMetrics (advance k s)
  ∧ recorded s ⊆ recorded (advance k s).
Proof.
  unfold Metrics.advance.
  destruct (inflight s !! k) as [c|]; [|done].
  destruct (pending c) as [|url rest].
  - destruct (downloadEffect_fields
      {| currentRoute := currentRoute s; location := location s;
         allMetrics := allMetrics s ++ newMetrics c; recorded := recorded s;
         hasDownloaded := hasDownloaded s; inflight := delete k (inflight s);
         downloads := downloads s; issued := issued s |}) as (-> & _).
    rewrite downloadEffect_recorded. split; [by apply prefix_app_r|done].
  - case_bool_decide; [done|].
    destruct (measure _ _ _ _ _ _). split; [done|]. cbn [recorded]. set_solver.
Qed.

(** X17. The log of a session only grows at its end and the set of seen
    URLs only grows: whatever happens next, the records logged so far stay
    where they are, in their order, and no URL is forgotten. *)
Theorem log_is_append_only (s : Session) (events : list Event) :
  allMetrics s `prefix_of` allMetrics (run s events)
  ∧ recorded s ⊆ recorded (run s events).
Proof.
  revert s. unfold Metrics.run.
  induction events as [|e events IH]; intros s; simpl; [done|].
  destruct (IH (step s e)) as [Hlog Hseen].
  assert (Hstep : allMetrics s `prefix_of` allMetrics (step s e)
                  ∧ recorded s ⊆ recorded (step s e)).
  { destruct e as [route|loc|k]; simpl.
    - case_match; [done|].
      destruct (downloadEffect_fields (captureEffect (withRoute route s)))
        as (-> & _).
      destruct (captureEffect_fields (withRoute route s)) as (-> & _).
      by rewrite downloadEffect_recorded, captureEffect_recorded.
    - destruct (captureEffect_fields (withLocation loc s)) as (-> & _).
      by rewrite captureEffect_recorded.
    - apply advance_log_grows. }
  destruct Hstep as [Hlog1 Hseen1]. split.
  - by etrans.
  - by etrans.
Qed.

Lemma downloadEffect_after_export (s : Session) :
  hasDownloaded s = true →
  downloadEffect s = s.
Proof.
  intros Hflag. unfold Metrics.downloadEffect.
  destruct (allMetrics s); [done|].
  by rewrite Hflag, andb_false_r.
Qed.

Lemma step_after_export (s : Session) (e : Event) :
  hasDownloaded s = true →
  hasDownloaded (step s e) = true ∧ downloads (step s e) = downloads s.
Proof.
  intros Hflag.
  assert (Hcap : ∀ s', hasDownloaded s' = true →
            hasDownloaded (captureEffect s') = true
            ∧ downloads (captureEffect s') = downloads s').
  { intros s' Hs'. by destruct (captureEffect_downloads surveyRoutes buildUrls s')
      as [-> ->]. }
  destruct e as [route|loc|k]; simpl.
  - case_match; [done|].
    destruct (Hcap (withRoute route s) Hflag) as [Hf Hd].
    by rewrite (downloadEffect_after_export _ Hf).
  - by destruct (Hcap (withLocation loc s) Hflag).
  - unfold Metrics.advance.
    destruct (inflight s !! k) as [c|]; [|done].
    destruct (pending c) as [|url rest].
    + by rewrite downloadEffect_after_export.
    + case_bool_decide; [done|]. by destruct (measure _ _ _ _ _ _).
Qed.

(** X18. The report is a snapshot: once it has been exported, nothing that
    happens later in the session changes the files downloaded, so the
    records a capture logs after the export reach no file. *)
Theorem export_is_a_snapshot (s : Session) (events : list Event) :
  hasDownloaded s = true →
  hasDownloaded (run s events) = true
  ∧ downloads (run s events) = downloads s.
Proof.
  revert s. unfold Metrics.run.
  induction events as [|e events IH]; intros s Hflag; simpl; [done|].
  destruct (step_after_export s e Hflag) as [Hf Hd].
  destruct (IH _ Hf) as [Hf' Hd']. split; [done|]. by rewrite Hd'.
Qed.

End SessionMore.

Lemma export_is_a_snapshot_witness :
  let s :=
    Metrics.run Samples.lossyNet Samples.routes "local" Samples.localUrls
      Samples.nativeText Fixtures.afterExport [ Advance 0; Advance 0 ] in
  downloads s = downloads Fixtures.afterExport
  ∧ length (allMetrics s) = 3
  ∧ length (allMetrics Fixtures.afterExport) = 2.
Proof.
  split; [|by vm_compute].
  exact (proj2 (export_is_a_snapshot Samples.lossyNet Samples.routes "local"
                  Samples.localUrls Samples.nativeText Fixtures.afterExport
                  [ Advance 0; Advance 0 ] eq_refl)).
Defined.

Section Provenance.

Variable net : Network.
Variable surveyRoutes : list string.
Variable providerName : string.
Variable buildUrls : string → promise (list string).
Variable protoText : string → string.

Local Abbreviation sourced := (wellSourced surveyRoutes providerName buildUrls).
Local Abbreviation sourcedCapture :=
  (wellSourcedCapture surveyRoutes providerName buildUrls).

Local Abbreviation provenance :=
  (provenance surveyRoutes providerName buildUrls).

Lemma measure_fields (url routeKey : string) (loc : Geo) (issued : list string) :
  let m := (measure net url routeKey providerName loc issued).1 in
  route m = routeKey ∧ storageProvider m = providerName ∧ fileURL m = url
  ∧ mCountry m = country loc ∧ mContinent m = continent loc.
Proof.
  unfold measure. by destruct (timingLoop _ _ _ _ _ _).
Qed.

Lemma captureEffect_provenance (s : Session) :
  provenance s →
  provenance (Metrics.captureEffect surveyRoutes buildUrls s).
Proof.
  intros [Hlog Hcaps]. unfold Metrics.captureEffect.
  destruct (List.find _ surveyRoutes) as [matched|] eqn:Hfind; [|done].
  destruct (caseDirOf matched) as [caseDir|] eqn:Hdir; [|done].
  destruct (buildUrls caseDir) as [urls| |] eqn:Hurls; try done.
  split; [done|]. cbn [inflight]. apply Forall_app. split; [done|].
  constructor; [|constructor]. split; [|split].
  - cbn [routeKey]. apply find_some in Hfind as [Hin _].
    by apply list_elem_of_In.
  - by exists caseDir, urls.
  - constructor.
Qed.

Lemma downloadEffect_provenance (s : Session) :
  provenance s →
  provenance (Metrics.downloadEffect providerName protoText s).
Proof.
  intros [Hlog Hcaps]. unfold provenance.
  by destruct (downloadEffect_fields providerName protoText s)
    as (-> & _ & -> & _).
Qed.

Lemma advance_provenance (k : nat) (s : Session) :
  provenance s → provenance (Metrics.advance net providerName protoText k s).
Proof.
  intros [Hlog Hcaps]. unfold Metrics.advance.
  destruct (inflight s !! k) as [c|] eqn:Hk; [|done].
  pose proof (Forall_lookup_1 _ _ _ _ Hcaps Hk)
    as (Hroute & (caseDir & urls & Hdir & Hurls & Hpending) & Hnew).
  destruct (pending c) as [|url rest] eqn:Hp.
  - apply downloadEffect_provenance. split; cbn [allMetrics inflight].
    + apply Forall_app. split; [done|].
      eapply Forall_impl; [exact Hnew|]. by intros m [_ Hm].
    + by apply Forall_delete.
  - assert (Hrest : rest ⊆ urls).
    { intros u Hu. apply Hpending. by apply list_elem_of_further. }
    case_bool_decide.
    + split; [done|]. cbn [inflight]. apply Forall_insert; [done|].
      split; [done|]. split; [|done]. by exists caseDir, urls.
    + pose proof (measure_fields url (routeKey c) (captured c) (issued s))
        as (Hr & Hp' & Hu & _).
      destruct (measure net url (routeKey c) providerName (captured c) (issued s))
        as [m issued'].
      cbn [fst] in *. split; [done|]. cbn [inflight].
      apply Forall_insert; [done|].
      split; [done|]. split; [by exists caseDir, urls|].
      cbn [newMetrics]. apply Forall_app. split; [done|].
      constructor; [|constructor]. split; [done|].
      split; [done|]. split; [by rewrite Hr|].
      exists caseDir, urls. rewrite Hr, Hu. split; [done|]. split; [done|].
      apply Hpending, list_elem_of_here.
Qed.


End Provenance.

(** ** Splitting and joining *)

Lemma rev_app_append (a b s : string) :
  String.rev_app a b +:+ s = String.rev_app a (b +:+ s).
Proof.
  revert b. induction a as [|c a IH]; intros b; simpl; [done|].
  by rewrite IH.
Qed.

Lemma rev_cons_append (c : ascii) (cur s : string) :
  String.rev (String c cur) +:+ s = String.rev cur +:+ String c s.
Proof. unfold String.rev. simpl. by rewrite !rev_app_append. Qed.

Lemma append_cons (c : ascii) (s t : string) :
  String c s +:+ t = String c (s +:+ t).
Proof. reflexivity. Qed.

Lemma append_nil_r (s : string) : s +:+ "" = s.
Proof.
  induction s as [|c s IH]; [done|]. by rewrite append_cons, IH.
Qed.

Lemma append_assoc (a b c : string) : (a +:+ b) +:+ c = a +:+ b +:+ c.
Proof.
  induction a as [|x a IH]; [done|]. by rewrite !append_cons, IH.
Qed.

Lemma split_aux_nonempty (sep : ascii) (s cur : string) :
  Str.split_aux sep s cur ≠ [].
Proof.
  revert cur. induction s as [|c s IH]; intros cur; simpl; [done|].
  destruct (Ascii.eqb c sep); [done|apply IH].
Qed.

Lemma split_length_pos (sep : ascii) (s : string) :
  1 ≤ length (Str.split sep s).
Proof.
  pose proof (split_aux_nonempty sep s "") as Hne. unfold Str.split.
  destruct (Str.split_aux sep s ""); [done|]. cbn [length]. lia.
Qed.

Lemma join_cons (sep x : string) (l : list string) :
  l ≠ [] → Str.join sep (x :: l) = x +:+ sep +:+ Str.join sep l.
Proof. by destruct l. Qed.

(** Joining the pieces of a string gives the string back. *)
Lemma join_split_aux (sep : ascii) (s cur : string) :
  Str.join (String sep "") (Str.split_aux sep s cur) = String.rev cur +:+ s.
Proof.
  revert cur. induction s as [|c s IH]; intros cur; simpl.
  - by rewrite append_nil_r.
  - destruct (Ascii.eqb_spec c sep) as [->|Hne].
    + rewrite join_cons by apply split_aux_nonempty.
      by rewrite (IH "").
    + by rewrite IH, rev_cons_append.
Qed.

Lemma join_split (sep : ascii) (s : string) :
  Str.join (String sep "") (Str.split sep s) = s.
Proof. apply (join_split_aux sep s ""). Qed.

(** Splitting a string that holds a separator: the pieces before it, then
    the pieces after it. *)
Lemma split_aux_app_sep (sep : ascii) (a b cur : string) :
  Str.split_aux sep (a +:+ String sep b) cur
    = Str.split_aux sep a cur ++ Str.split sep b.
Proof.
  revert cur. induction a as [|c a IH]; intros cur; simpl.
  - by rewrite Ascii.eqb_refl.
  - destruct (Ascii.eqb c sep); [|apply IH]. by rewrite (IH "").
Qed.

Lemma split_app_sep (sep : ascii) (a b : string) :
  Str.split sep (a +:+ String sep b) = Str.split sep a ++ Str.split sep b.
Proof. apply split_aux_app_sep. Qed.

Lemma split_join (sep : ascii) (l : list string) :
  l ≠ [] →
  Str.split sep (Str.join (String sep "") l) = flat_map (Str.split sep) l.
Proof.
  induction l as [|x l IH]; [done|]. intros _.
  destruct l as [|y l].
  - simpl. by rewrite app_nil_r.
  - rewrite join_cons by done. cbn [flat_map].
    change (String sep "" +:+ Str.join (String sep "") (y :: l))
      with (String sep (Str.join (String sep "") (y :: l))).
    rewrite split_app_sep. f_equal. by apply IH.
Qed.

Lemma split_single (sep : ascii) (s : string) :
  length (Str.split sep s) = 1 → Str.split sep s = [s].
Proof.
  intros Hlen. pose proof (join_split sep s) as Hjoin.
  destruct (Str.split sep s) as [|x [|y l]]; try done.
  simpl in Hjoin. by rewrite Hjoin.
Qed.

(** ** The report: no escaping *)

(** X20. The values of a line of the report are joined with commas as they
    are: read back, a line holds the comma-separated pieces of each of its
    values in turn, so it has its fourteen fields exactly when no value
    holds a comma. *)
Theorem report_line_is_not_escaped (protoText : string → string)
    (m : MetricRecord) :
  reportRow protoText m = Str.join "," (reportCells protoText m)
  ∧ Str.split "," (reportRow protoText m)
      = flat_map (Str.split ",") (reportCells protoText m)
  ∧ (length (Str.split "," (reportRow protoText m)) = 14
     ↔ Forall (fun v => Str.split "," v = [v]) (reportCells protoText m)).
Proof.
  assert (Hsplit : Str.split "," (reportRow protoText m)
                   = flat_map (Str.split ",") (reportCells protoText m))
    by (by apply (split_join "," (reportCells protoText m))).
  split; [done|]. split; [done|]. rewrite Hsplit.
  assert (Hgen : ∀ cells : list string,
            length (flat_map (Str.split ",") cells) = length cells
            ↔ Forall (fun v => Str.split "," v = [v]) cells).
  { assert (Hge : ∀ cells : list string,
              length cells ≤ length (flat_map (Str.split ",") cells)).
    { induction cells as [|v cells IH]; [done|]. cbn [flat_map].
      rewrite length_app. cbn [length].
      pose proof (split_length_pos "," v). lia. }
    induction cells as [|v cells IH]; [by split; [constructor|]|].
    cbn [flat_map length]. rewrite length_app. split.
    - intros Hlen. pose proof (Hge cells) as Hcells.
      pose proof (split_length_pos "," v) as Hpos.
      assert (Hone : length (Str.split "," v) = 1) by lia.
      constructor; [by apply split_single|]. apply IH. lia.
    - intros Hall. apply Forall_cons in Hall as [Hv Hall].
      rewrite Hv. cbn [length]. f_equal. by apply IH. }
  apply (Hgen (reportCells protoText m)).
Qed.

(** ** Azure: folder names and listing prefixes *)

Lemma last_segment (base folder : string) :
  base = "" ∨ (∃ b, base = b +:+ "/") →
  folder ≠ "" →
  Str.split "/" folder = [folder] →
  Str.pop (Azure.segments (base +:+ folder +:+ "/")) = Some folder.
Proof.
  intros Hbase Hne Hflat. unfold Str.pop, Azure.segments.
  assert (Htail : Str.split "/" (folder +:+ "/") = [folder; ""]).
  { change (folder +:+ "/") with (folder +:+ String "/" "").
    by rewrite split_app_sep, Hflat. }
  assert (Hkeep : List.filter (fun s => negb (String.eqb s "")) [folder; ""]
                  = [folder]).
  { cbn [List.filter]. by destruct (String.eqb_spec folder ""). }
  destruct Hbase as [->|[b ->]].
  - change ("" +:+ folder +:+ "/") with (folder +:+ "/").
    by rewrite Htail, Hkeep.
  - rewrite append_assoc.
    change ("/" +:+ folder +:+ "/") with (String "/" (folder +:+ "/")).
    rewrite split_app_sep, Htail, List.filter_app, Hkeep.
    apply last_snoc.
Qed.


Lemma collapseSlashes_head (c : ascii) (s : string) :
  c ≠ "/"%char →
  Azure.collapseSlashes (String c s) = String c (Azure.collapseSlashes s).
Proof. intros Hc. simpl. by destruct (Ascii.eqb_spec c "/"). Qed.

Lemma double_slash_inv (c : ascii) (t a b : string) :
  String c t = a +:+ "//" +:+ b →
  (c = "/"%char ∧ ∃ t', t = String "/" t')
  ∨ (∃ a', t = a' +:+ "//" +:+ b).
Proof.
  destruct a as [|x a]; intros H.
  - left. change ("" +:+ "//" +:+ b) with (String "/" (String "/" b)) in H.
    injection H as -> ->. eauto.
  - right. rewrite append_cons in H. injection H as -> ->. eauto.
Qed.

Lemma collapseSlashes_no_double (s a b : string) :
  Azure.collapseSlashes s ≠ a +:+ "//" +:+ b.
Proof.
  revert a b. induction s as [|c s IH]; intros a b.
  - simpl. by destruct a.
  - destruct (Ascii.eqb_spec c "/") as [->|Hc].
    + destruct s as [|c' s'].
      * simpl. destruct a as [|x [|y a]]; try done.
      * destruct (Ascii.eqb_spec c' "/") as [->|Hc'].
        -- assert (Hskip : Azure.collapseSlashes (String "/" (String "/" s'))
                           = Azure.collapseSlashes (String "/" s'))
             by reflexivity.
           rewrite Hskip. apply IH.
        -- assert (Hkeep : Azure.collapseSlashes (String "/" (String c' s'))
                           = String "/" (Azure.collapseSlashes (String c' s'))).
           { simpl. by destruct (Ascii.eqb_spec c' "/"). }
           rewrite Hkeep. intros H.
           apply double_slash_inv in H as [(_ & t' & Ht)|(a' & Ha)].
           ++ rewrite collapseSlashes_head in Ht by done. by injection Ht.
           ++ by apply (IH a' b).
    + rewrite collapseSlashes_head by done. intros H.
      apply double_slash_inv in H as [(Hc' & _)|(a' & Ha)]; [done|].
      by apply (IH a' b).
Qed.

(** X22. The prefix a listing is asked with never holds two slashes in a
    row, whatever the root directory and the path hold. *)
Theorem azure_listing_prefix_is_normalised (ROOT_DIR path a b : string) :
  Azure.listingPrefix ROOT_DIR path ≠ a +:+ "//" +:+ b.
Proof. apply collapseSlashes_no_double. Qed.


(** ** Route keys *)

Lemma substring_all (s : string) :
  String.substring 0 (String.length s) s = s.
Proof. induction s as [|c s IH]; simpl; [done|]. by rewrite IH. Qed.

Lemma afterLastCase_cons (c : ascii) (s : string) :
  afterLastCase (String c s) =
    match afterLastCase s with
    | Some rest => Some rest
    | None =>
        if String.prefix "case" (String c s)
        then Some (String.substring 4 (String.length (String c s) - 4)
                     (String c s))
        else None
    end.
Proof. reflexivity. Qed.

Lemma afterLastCase_here (tail : string) :
  afterLastCase tail = None →
  afterLastCase ("case" +:+ tail) = Some tail.
Proof.
  intros Hnone.
  change ("case" +:+ tail)
    with (String "c" (String "a" (String "s" (String "e" tail)))).
  assert (He : afterLastCase (String "e" tail) = None)
    by (by rewrite afterLastCase_cons, Hnone).
  assert (Hs : afterLastCase (String "s" (String "e" tail)) = None)
    by (by rewrite afterLastCase_cons, He).
  assert (Ha : afterLastCase (String "a" (String "s" (String "e" tail))) = None)
    by (by rewrite afterLastCase_cons, Hs).
  rewrite afterLastCase_cons, Ha.
  assert (Hprefix : String.prefix "case"
            (String "c" (String "a" (String "s" (String "e" tail)))) = true)
    by (simpl; by destruct tail).
  rewrite Hprefix. f_equal. simpl. rewrite Nat.sub_0_r. apply substring_all.
Qed.

Lemma afterLastCase_later (prefix rest r : string) :
  afterLastCase rest = Some r →
  afterLastCase (prefix +:+ rest) = Some r.
Proof.
  intros Hrest. induction prefix as [|c prefix IH]; [done|].
  rewrite append_cons. cbn [afterLastCase]. by rewrite IH.
Qed.



(** ** perfHelpers: the size table and the number format *)

Lemma keys_set {V : Type} (o : list (string * V)) (k : string) (v : V) :
  Obj.keys (Obj.set o k v) =
    if bool_decide (k ∈ Obj.keys o) then Obj.keys o else Obj.keys o ++ [k].
Proof.
  unfold Obj.keys. induction o as [|[k' w] o IH]; [done|]. cbn [Obj.set map fst].
  destruct (String.eqb_spec k' k) as [->|Hne].
  - rewrite bool_decide_eq_true_2 by apply list_elem_of_here. done.
  - cbn [map fst]. rewrite IH. case_bool_decide as Hin.
    + rewrite bool_decide_eq_true_2 by (by apply list_elem_of_further). done.
    + rewrite bool_decide_eq_false_2; [done|].
      intros [?|?]%elem_of_cons; [by subst|done].
Qed.

Lemma sizeMapStep_keys (map map' : list (string * jsval)) (fileName : string) :
  sizeMapStep map fileName = Some map' →
  Obj.keys map' =
    if bool_decide (fileName ∈ Obj.keys map) then Obj.keys map
    else Obj.keys map ++ [fileName].
Proof.
  unfold sizeMapStep. destruct (Str.split "-" fileName !! 1); [|done].
  intros [= <-]. apply keys_set.
Qed.

Lemma reduceSizeMap_keys (files : list string) (map map' : list (string * jsval)) :
  reduceSizeMap files map = Some map' →
  NoDup (Obj.keys map) →
  NoDup (Obj.keys map')
  ∧ (∀ f, f ∈ Obj.keys map' ↔ f ∈ Obj.keys map ∨ f ∈ files)
  ∧ (NoDup (Obj.keys map ++ files) → Obj.keys map' = Obj.keys map ++ files).
Proof.
  revert map. induction files as [|fileName files IH]; intros map; simpl.
  - intros [= <-] Hnd. split; [done|]. split.
    + intros f. rewrite elem_of_nil. tauto.
    + by rewrite app_nil_r.
  - destruct (sizeMapStep map fileName) as [map1|] eqn:Hstep; [|done].
    intros Hred Hnd. pose proof (sizeMapStep_keys _ _ _ Hstep) as Hkeys.
    assert (Hnd1 : NoDup (Obj.keys map1)).
    { rewrite Hkeys. case_bool_decide as Hin; [done|].
      apply NoDup_app. split; [done|]. split; [|apply NoDup_singleton].
      intros f Hf [->|[]%elem_of_nil]%elem_of_cons. done. }
    destruct (IH _ Hred Hnd1) as (Hnd' & Hmem & Horder).
    split; [done|]. split.
    + intros f. rewrite Hmem, Hkeys, elem_of_cons.
      case_bool_decide as Hin.
      * split; [tauto|]. intros [?|[->|?]]; tauto.
      * rewrite elem_of_app, list_elem_of_singleton. tauto.
    + intros Hall.
      assert (Hfresh : fileName ∉ Obj.keys map).
      { apply NoDup_app in Hall as (_ & Hdisj & _).
        intros Hin. apply (Hdisj _ Hin), list_elem_of_here. }
      rewrite bool_decide_eq_false_2 in Hkeys by done.
      rewrite Horder, Hkeys, <- (assoc_L (++)); [done|].
      by rewrite Hkeys, <- (assoc_L (++)).
Qed.

(** X24. The keys of a size table the reducer builds are the file names of
    the manifest, each once; when the manifest names no file twice they
    are the manifest itself, in its order, which is the order the URL
    builders enumerate them in. *)
Theorem size_table_keys_follow_manifest (files : list string)
    (table : list (string * jsval)) :
  reduceSizeMap files [] = Some table →
  NoDup (Obj.keys table)
  ∧ (∀ f, f ∈ Obj.keys table ↔ f ∈ files)
  ∧ (NoDup files → Obj.keys table = files).
Proof.
  intros Hred.
  destruct (reduceSizeMap_keys files [] table Hred (NoDup_nil_2 (A:=string)))
    as (Hnd & Hmem & Horder).
  split; [done|]. split; [|done].
  intros f. rewrite Hmem. cbn [Obj.keys map]. rewrite elem_of_nil. tauto.
Qed.

Lemma size_table_keys_follow_manifest_witness :
  Obj.keys SIZE_MAP = ALL_FILES.
Proof.
  refine (proj2 (proj2 (size_table_keys_follow_manifest ALL_FILES SIZE_MAP
                          eq_refl)) _).
  exact (bool_decide_unpack (NoDup ALL_FILES) I).
Defined.

Lemma no_second_segment (f : string) :
  Str.split "-" f !! 1 = None ↔ Str.split "-" f = [f].
Proof.
  split.
  - intros Hnone. apply split_single.
    apply lookup_ge_None in Hnone. pose proof (split_length_pos "-" f). lia.
  - by intros ->.
Qed.

(** X25. Building a size table succeeds exactly when every file name of the
    manifest holds a hyphen; a name without one makes the reducer throw,
    whatever the names around it. *)
Theorem size_table_needs_hyphens (files : list string)
    (table : list (string * jsval)) :
  is_Some (reduceSizeMap files table)
  ↔ Forall (fun f => Str.split "-" f ≠ [f]) files.
Proof.
  revert table. induction files as [|fileName files IH]; intros table; simpl.
  - split; [by constructor|by eexists].
  - rewrite Forall_cons, <- no_second_segment. unfold sizeMapStep.
    destruct (Str.split "-" fileName !! 1) as [segment|].
    + rewrite IH. split; [by split|tauto].
    + split; [by intros [? ?]|by intros [[] _]].
Qed.

Lemma length_append (a b : string) :
  String.length (a +:+ b) = String.length a + String.length b.
Proof.
  induction a as [|c a IH]; [done|]. rewrite append_cons. simpl. by rewrite IH.
Qed.

Lemma length_substring (n m : nat) (s : string) :
  n + m ≤ String.length s → String.length (String.substring n m s) = m.
Proof.
  revert n m. induction s as [|c s IH]; intros n m; simpl.
  - intros Hle. assert (n = 0 ∧ m = 0) as [-> ->] by lia. done.
  - intros Hle. destruct n as [|n].
    + destruct m as [|m]; [done|]. simpl. rewrite IH; [done|lia].
    + apply IH. lia.
Qed.

Lemma allDigits_append (a b : string) :
  allDigits a = true → allDigits b = true → allDigits (a +:+ b) = true.
Proof.
  intros Ha Hb. induction a as [|c a IH]; [done|].
  rewrite append_cons. simpl in *. destruct (digitValue c); [auto|done].
Qed.

Lemma allDigits_substring (n m : nat) (s : string) :
  allDigits s = true → allDigits (String.substring n m s) = true.
Proof.
  revert n m. induction s as [|c s IH]; intros n m Hs.
  - by destruct n, m.
  - simpl in Hs. destruct (digitValue c) eqn:Hc; [|done].
    destruct n as [|n]; simpl.
    + destruct m as [|m]; [done|]. simpl. rewrite Hc. by apply IH.
    + by apply IH.
Qed.

Lemma zeros_digits (k : nat) :
  allDigits (zeros k) = true ∧ String.length (zeros k) = k.
Proof. induction k as [|k [IH1 IH2]]; [done|]. simpl. by rewrite IH2. Qed.

Lemma string_of_uint_digits (d : Decimal.uint) :
  allDigits (DecimalString.NilEmpty.string_of_uint d) = true.
Proof. induction d; simpl; done. Qed.

Lemma digits_shape (n : Z) :
  allDigits (digits n) = true ∧ 1 ≤ String.length (digits n).
Proof.
  unfold digits, DecimalString.NilZero.string_of_uint.
  destruct (N.to_uint (Z.to_N n)) as [|d|d|d|d|d|d|d|d|d|d]; [by split|..];
    (split; [apply string_of_uint_digits|simpl; lia]).
Qed.

(** X26. Every number the report writes with [toFixed(2)] is a sign, at
    least one decimal digit, a point and exactly two decimal digits: no
    comma, no exponent, no missing zero. *)
Theorem toFixed2_has_two_decimals (x : Q) :
  ∃ whole frac,
    toFixed2 x = (if Qle_bool 0 x then "" else "-") +:+ whole +:+ "." +:+ frac
    ∧ 1 ≤ String.length whole
    ∧ String.length frac = 2
    ∧ allDigits whole = true
    ∧ allDigits frac = true.
Proof.
  unfold toFixed2.
  set (n := Qfloor (Qabs x * 100 + (1 # 2))%Q).
  destruct (digits_shape n) as [Hdigits Hlen].
  set (m := if String.length (digits n) <=? 2
            then zeros (3 - String.length (digits n)) +:+ digits n
            else digits n).
  assert (Hm : allDigits m = true ∧ 3 ≤ String.length m).
  { subst m. destruct (Nat.leb_spec (String.length (digits n)) 2) as [Hle|Hgt].
    - destruct (zeros_digits (3 - String.length (digits n))) as [Hz Hzl].
      split; [by apply allDigits_append|]. rewrite length_append, Hzl. lia.
    - split; [done|lia]. }
  destruct Hm as [Hmd Hml].
  exists (String.substring 0 (String.length m - 2) m),
         (String.substring (String.length m - 2) 2 m).
  split; [done|]. split; [|split; [|split]].
  - rewrite length_substring; lia.
  - rewrite length_substring; lia.
  - by apply allDigits_substring.
  - by apply allDigits_substring.
Qed.
